(** * Character Record Store: a shallow embedding of
      [character_database_streamlit.py] and its verified properties.

    The development covers the two classes of the program, [Character]
    and [CharacterDatabase].  Of the presentation code that follows them
    in the source, which only calls into the store, the Save button of
    the form, the Delete button of the list and the index given to the
    selectbox of the class are modelled; the rendering is not.

    Modelling choices, stated once:

    - Python values are the JSON-shaped ones ([None], [bool], [int],
      [str], [list], [dict] with [str] keys).  The attributes of a
      [Character] hold such values without any type constraint, as in the
      source, which validates nothing.  Floating-point numbers, tuples
      and integers beyond the limit that the interpreter puts on the
      conversion between [int] and [str] (4300 digits unless configured
      otherwise) are outside the model.
    - A [str] is a Rocq [string] whose characters stand for the code
      points of the text, all below 256; on these [str.lower] and
      [str.strip] are modelled exactly, and the comparison of strings is
      the comparison of code points.  Text with a code point from 256 on
      is outside the model.
    - [Character] objects live in a heap and are handled by reference, so
      that the mapping of the store and its callers share objects as they
      do in Python.
    - The data directory is a finite map from file names to files, on a
      file system that tells upper from lower case and limits a file name
      to 255 bytes of UTF-8.  A file either holds a JSON document,
      identified with the value that [json.load] returns for it
      ([json.dump] followed by [json.load] is the identity on the values
      above), or holds text that is not JSON, or bytes that are not text.
      Opening a file fails as the program can make it fail: on a name
      with a NUL character or longer than the limit; looking for a file
      fails on a name longer than the limit, as [Path.exists] does up to
      Python 3.13.  A name with a separator is a path that leaves the
      entries of the directory; where it leads depends on what surrounds
      the directory, which the model does not follow: it answers with an
      error of its own, and the statements about what a save or a delete
      does leave such names out.  Failures that do not depend on the
      program (permissions, full disk) are not modelled.
    - [datetime.now()] reads a clock given as the sequence of its
      successive readings.
    - The order in which [glob] enumerates the directory is not fixed by
      the program: [load_all_characters] takes the enumeration as an
      argument and the statements hold for every enumeration.
    - An exception leaves the state as it was when it was raised. *)

From Stdlib Require Import ZArith NArith String Ascii List Sorted Permutation Lia.
From stdpp Require Import gmap strings list fin_maps.

Set Warnings "-register-all".

Local Open Scope string_scope.

(** ** Python values *)

Inductive pyval :=
  | PNone
  | PBool (b : bool)
  | PInt (z : Z)
  | PStr (s : string)
  | PList (l : list pyval)
  | PDict (d : gmap string pyval).

(** The hashable values, up to Python's key equality: [True == 1] and
    [False == 0] denote the same dictionary key. *)
Inductive pykey :=
  | KNone
  | KInt (z : Z)
  | KStr (s : string).

#[global] Instance pykey_eq_dec : EqDecision pykey.
Proof. solve_decision. Defined.

(** [hash(v)]: lists and dictionaries are unhashable. *)
Definition py_hash (v : pyval) : option pykey :=
  match v with
  | PNone => Some KNone
  | PBool b => Some (KInt (if b then 1 else 0))
  | PInt z => Some (KInt z)
  | PStr s => Some (KStr s)
  | PList _ | PDict _ => None
  end.

(** ** Strings *)

Definition map_string (f : ascii → ascii) : string → string :=
  fix go (s : string) : string :=
    match s with
    | EmptyString => EmptyString
    | String c s' => String (f c) (go s')
    end.

(** [s.replace(' ', '_')] *)
Definition replace_space (s : string) : string :=
  map_string (λ c, if Ascii.eqb c " " then "_"%char else c) s.

(** The code points below 256 that [str.lower] changes: the letters A
    to Z and the capital letters of Latin-1, 192 to 222 but for the
    multiplication sign 215. *)
Definition is_upper (c : ascii) : bool :=
  let n := nat_of_ascii c in
  ((65 <=? n)%nat && (n <=? 90)%nat)
  || ((192 <=? n)%nat && (n <=? 222)%nat && negb (n =? 215)%nat).

(** [c.lower()]: each of them has its small letter 32 places on. *)
Definition lower_char (c : ascii) : ascii :=
  if is_upper c then ascii_of_nat (nat_of_ascii c + 32) else c.

(** [s.lower()] *)
Definition str_lower (s : string) : string := map_string lower_char s.

(** [s.endswith(suffix)] *)
Definition endswith (s suffix : string) : bool :=
  let n := String.length s in
  let k := String.length suffix in
  (k <=? n)%nat && String.eqb (substring (n - k) k s) suffix.

Definition contains_char (c : ascii) : string → bool :=
  fix go (s : string) : bool :=
    match s with
    | EmptyString => false
    | String c' s' => Ascii.eqb c c' || go s'
    end.

(** [len(s.encode())]: a code point below 128 takes one byte of UTF-8, the
    others of the model take two. *)
Fixpoint utf8_length (s : string) : nat :=
  match s with
  | EmptyString => O
  | String c s' =>
      ((if (nat_of_ascii c <? 128)%nat then 1 else 2) + utf8_length s')%nat
  end.

(** ** Timestamps *)

Record datetime := mkDatetime {
  year : N; month : N; day : N;
  hour : N; minute : N; second : N;
  microsecond : N
}.

Definition digit (n : N) : ascii := ascii_of_N (48 + n).

(** The last [w] decimal digits of [n], most significant first: the
    format [%0wd] for every [n < 10 ^ w]. *)
Fixpoint pad (w : nat) (n : N) : string :=
  match w with
  | O => EmptyString
  | S w' => pad w' (n / 10) +:+ String (digit (n mod 10)) EmptyString
  end.

(** [dt.isoformat()]: [YYYY-MM-DDTHH:MM:SS], followed by [.ffffff] when
    the microsecond is not zero. *)
Definition isoformat (dt : datetime) : string :=
  pad 4 (year dt) +:+ "-" +:+ pad 2 (month dt) +:+ "-" +:+ pad 2 (day dt)
  +:+ "T" +:+ pad 2 (hour dt) +:+ ":" +:+ pad 2 (minute dt) +:+ ":"
  +:+ pad 2 (second dt)
  +:+ (if (microsecond dt =? 0)%N then "" else "." +:+ pad 6 (microsecond dt)).

(** The ranges that a [datetime] object enforces on its fields. *)
Definition valid_datetime (dt : datetime) : Prop :=
  (1 <= year dt <= 9999 ∧ 1 <= month dt <= 12 ∧ 1 <= day dt <= 31
   ∧ hour dt < 24 ∧ minute dt < 60 ∧ second dt < 60
   ∧ microsecond dt < 1000000)%N.

Definition datetime_fields (dt : datetime) : list N :=
  [year dt; month dt; day dt; hour dt; minute dt; second dt; microsecond dt].

(** Lexicographic order on lists of numbers; on [datetime_fields] it is
    the chronological order. *)
Fixpoint lex_lt (l1 l2 : list N) : Prop :=
  match l1, l2 with
  | x :: l1', y :: l2' => (x < y)%N ∨ (x = y ∧ lex_lt l1' l2')
  | _, _ => False
  end.

Definition datetime_lt (a b : datetime) : Prop :=
  lex_lt (datetime_fields a) (datetime_fields b).

Definition datetime_le (a b : datetime) : Prop := a = b ∨ datetime_lt a b.

(** Python's [<] and [<=] on [str]. *)
Definition str_lt (s t : string) : Prop := String.compare s t = Lt.
Definition str_le (s t : string) : Prop := String.compare s t ≠ Gt.

(** ** The Character class *)

Record Character := mkCharacter {
  name : pyval;
  char_class : pyval;
  level : pyval;
  strength : pyval;
  dexterity : pyval;
  constitution : pyval;
  intelligence : pyval;
  wisdom : pyval;
  charisma : pyval;
  created_date : pyval;
  modified_date : pyval
}.

Definition set_created_date (v : pyval) (c : Character) : Character :=
  mkCharacter (name c) (char_class c) (level c) (strength c) (dexterity c)
    (constitution c) (intelligence c) (wisdom c) (charisma c)
    v (modified_date c).

Definition set_modified_date (v : pyval) (c : Character) : Character :=
  mkCharacter (name c) (char_class c) (level c) (strength c) (dexterity c)
    (constitution c) (intelligence c) (wisdom c) (charisma c)
    (created_date c) v.

Definition set_name (v : pyval) (c : Character) : Character :=
  mkCharacter v (char_class c) (level c) (strength c) (dexterity c)
    (constitution c) (intelligence c) (wisdom c) (charisma c)
    (created_date c) (modified_date c).

(** ** The state of the program and its environment *)

(** References to [Character] objects. *)
Definition loc := nat.

Inductive file :=
  | Json (doc : pyval)
  | Malformed      (* text that is not a JSON document *)
  | Undecodable.   (* bytes that are not text in the encoding of [open] *)

(** A Python [dict] whose values are object references: insertion
    ordered, one entry per key. *)
Definition pydict := list (pykey * loc).

Record World := mkWorld {
  clock : nat → datetime;          (* the successive readings of the clock *)
  ticks : nat;                     (* how many readings were taken *)
  heap : list Character;           (* the Character objects *)
  disk : gmap string file;         (* the data directory *)
  characters : pydict              (* CharacterDatabase.characters *)
}.

Inductive exn :=
  | AttributeError
  | TypeError
  | KeyError
  | JSONDecodeError
  | UnicodeDecodeError
  | FileNotFoundError
  | ValueError
  | OSError
  | InvalidReference    (* not a Python exception: a reference to no object *)
  | OutsideDirectory.   (* not a Python exception: a path with a separator *)

Inductive outcome (A : Type) :=
  | Ok (a : A)
  | Raise (e : exn).
Arguments Ok {A} a.
Arguments Raise {A} e.

(** Computations: they thread the world and may raise. *)
Definition M (A : Type) : Type := World → outcome A * World.

#[global] Instance M_ret : MRet M := λ A a w, (Ok a, w).
#[global] Instance M_bind : MBind M := λ A B f m w,
  match m w with
  | (Ok a, w') => f a w'
  | (Raise e, w') => (Raise e, w')
  end.

Definition raise {A} (e : exn) : M A := λ w, (Raise e, w).

Fixpoint for_each {A} (l : list A) (body : A → M ()) : M () :=
  match l with
  | [] => mret ()
  | x :: l' => body x ≫= λ _, for_each l' body
  end.

Fixpoint map_M {A B} (f : A → M B) (l : list A) : M (list B) :=
  match l with
  | [] => mret []
  | x :: l' => y ← f x; ys ← map_M f l'; mret (y :: ys)
  end.

(** *** Clock *)

(** [datetime.now().isoformat()] *)
Definition now_isoformat : M pyval := λ w,
  (Ok (PStr (isoformat (clock w (ticks w)))),
   mkWorld (clock w) (S (ticks w)) (heap w) (disk w) (characters w)).

(** *** Heap *)

Definition alloc (c : Character) : M loc := λ w,
  (Ok (length (heap w)),
   mkWorld (clock w) (ticks w) (heap w ++ [c]) (disk w) (characters w)).

Definition deref (l : loc) : M Character := λ w,
  match heap w !! l with
  | Some c => (Ok c, w)
  | None => (Raise InvalidReference, w)
  end.

Definition update (l : loc) (f : Character → Character) : M () := λ w,
  match heap w !! l with
  | Some c =>
      (Ok (), mkWorld (clock w) (ticks w) (<[l := f c]> (heap w)) (disk w)
                (characters w))
  | None => (Raise InvalidReference, w)
  end.

(** *** Files *)

(** The longest file name, in bytes. *)
Definition NAME_MAX : nat := 255.

(** What [open(data_dir / name, 'w')] raises, if anything: [ValueError] on
    an embedded NUL, which Python refuses before it asks the system, and
    [OSError] (file name too long) beyond [NAME_MAX]. *)
Definition open_error (name : string) : option exn :=
  if contains_char "000" name then Some ValueError
  else if contains_char "/" name then Some OutsideDirectory
  else if (NAME_MAX <? utf8_length name)%nat then Some OSError
  else None.

(** What [(data_dir / name).exists()] raises, if anything, for a name that
    is not in the directory: on an embedded NUL it answers [False], and
    beyond [NAME_MAX] it raises [OSError], as [Path.exists] does up to
    Python 3.13. *)
Definition stat_error (name : string) : option exn :=
  if contains_char "000" name then None
  else if contains_char "/" name then Some OutsideDirectory
  else if (NAME_MAX <? utf8_length name)%nat then Some OSError
  else None.

(** [open(path, 'w')] followed by [json.dump(doc, f)] *)
Definition write_json (path : string) (doc : pyval) : M () := λ w,
  match open_error path with
  | Some e => (Raise e, w)
  | None =>
      (Ok (), mkWorld (clock w) (ticks w) (heap w)
                (<[path := Json doc]> (disk w)) (characters w))
  end.

(** [open(path, 'r')] followed by [json.load(f)] *)
Definition read_json (path : string) : M pyval := λ w,
  match disk w !! path with
  | Some (Json doc) => (Ok doc, w)
  | Some Malformed => (Raise JSONDecodeError, w)
  | Some Undecodable => (Raise UnicodeDecodeError, w)
  | None => (Raise FileNotFoundError, w)
  end.

(** [path.exists()] *)
Definition path_exists (path : string) : M bool := λ w,
  match disk w !! path with
  | Some _ => (Ok true, w)
  | None =>
      match stat_error path with
      | Some e => (Raise e, w)
      | None => (Ok false, w)
      end
  end.

(** [path.unlink()] *)
Definition unlink (path : string) : M () := λ w,
  match disk w !! path with
  | Some _ =>
      (Ok (), mkWorld (clock w) (ticks w) (heap w) (delete path (disk w))
                (characters w))
  | None => (Raise FileNotFoundError, w)
  end.

(** What [data_dir.glob("*.json")] matches: the entries directly under
    the directory whose name ends in [.json]. *)
Definition glob_match (path : string) : bool :=
  endswith path ".json" && negb (contains_char "/" path).

(** The order in which [glob] yields the entries is the file system's
    business: [order] is one possible enumeration of the directory. *)
Definition glob_enumerates (d : gmap string file) (order : list string) : Prop :=
  NoDup order ∧ ∀ p, p ∈ order ↔ is_Some (d !! p) ∧ glob_match p = true.

(** *** Dictionaries *)

Fixpoint dict_lookup (k : pykey) (d : pydict) : option loc :=
  match d with
  | [] => None
  | (k', v) :: d' => if decide (k' = k) then Some v else dict_lookup k d'
  end.

(** [d[k] = v]: an existing key keeps its place, a new one goes last. *)
Fixpoint dict_insert (k : pykey) (v : loc) (d : pydict) : pydict :=
  match d with
  | [] => [(k, v)]
  | (k', v') :: d' =>
      if decide (k' = k) then (k', v) :: d' else (k', v') :: dict_insert k v d'
  end.

Fixpoint dict_remove (k : pykey) (d : pydict) : pydict :=
  match d with
  | [] => []
  | (k', v') :: d' =>
      if decide (k' = k) then d' else (k', v') :: dict_remove k d'
  end.

Definition dict_values (d : pydict) : list loc := map snd d.
Definition dict_keys (d : pydict) : list pykey := map fst d.

Definition set_characters (d : pydict) : M () := λ w,
  (Ok (), mkWorld (clock w) (ticks w) (heap w) (disk w) d).

Definition get_characters : M pydict := λ w, (Ok (characters w), w).

(** [hash(v)], as every dictionary operation on the key [v] starts. *)
Definition hash_of (v : pyval) : M pykey :=
  match py_hash v with
  | Some k => mret k
  | None => raise TypeError
  end.

(** [self.characters[key] = value] *)
Definition characters_setitem (key : pyval) (value : loc) : M () :=
  k ← hash_of key;
  d ← get_characters;
  set_characters (dict_insert k value d).

(** [del self.characters[key]] *)
Definition characters_delitem (key : pyval) : M () :=
  k ← hash_of key;
  d ← get_characters;
  match dict_lookup k d with
  | Some _ => set_characters (dict_remove k d)
  | None => raise KeyError
  end.

(** [self.characters.get(key)] *)
Definition characters_get (key : pyval) : M (option loc) :=
  k ← hash_of key;
  d ← get_characters;
  mret (dict_lookup k d).

(** *** Methods of [str] called on an arbitrary value *)

(** [v.replace(' ', '_')] *)
Definition call_replace (v : pyval) : M string :=
  match v with
  | PStr s => mret (replace_space s)
  | _ => raise AttributeError
  end.

(** [v.lower()] *)
Definition call_lower (v : pyval) : M string :=
  match v with
  | PStr s => mret (str_lower s)
  | _ => raise AttributeError
  end.

(** ** Character: constructor and serialization *)

(** [Character.__init__] *)
Definition Character_init
    (name char_class level strength dexterity constitution intelligence
       wisdom charisma : pyval) : M loc :=
  created ← now_isoformat;
  modified ← now_isoformat;
  alloc (mkCharacter name char_class level strength dexterity constitution
           intelligence wisdom charisma created modified).

(** The dictionary literal of [Character.to_dict]. *)
Definition dict_of (c : Character) : gmap string pyval :=
  <["modified_date" := modified_date c]>
  (<["created_date" := created_date c]>
  (<["charisma" := charisma c]>
  (<["wisdom" := wisdom c]>
  (<["intelligence" := intelligence c]>
  (<["constitution" := constitution c]>
  (<["dexterity" := dexterity c]>
  (<["strength" := strength c]>
  (<["level" := level c]>
  (<["class" := char_class c]>
  (<["name" := name c]> ∅)))))))))).

(** [Character.to_dict] *)
Definition to_dict (self : loc) : M pyval :=
  c ← deref self;
  mret (PDict (dict_of c)).

(** [data.get(key, dflt)] *)
Definition call_get (data : pyval) (key : string) (dflt : pyval) : M pyval :=
  match data with
  | PDict d => mret (default dflt (d !! key))
  | _ => raise AttributeError
  end.

(** [Character.from_dict] *)
Definition from_dict (data : pyval) : M loc :=
  a_name ← call_get data "name" (PStr "");
  a_class ← call_get data "class" (PStr "");
  a_level ← call_get data "level" (PInt 1);
  a_strength ← call_get data "strength" (PInt 10);
  a_dexterity ← call_get data "dexterity" (PInt 10);
  a_constitution ← call_get data "constitution" (PInt 10);
  a_intelligence ← call_get data "intelligence" (PInt 10);
  a_wisdom ← call_get data "wisdom" (PInt 10);
  a_charisma ← call_get data "charisma" (PInt 10);
  char ← Character_init a_name a_class a_level a_strength a_dexterity
           a_constitution a_intelligence a_wisdom a_charisma;
  t ← now_isoformat;
  created ← call_get data "created_date" t;
  update char (set_created_date created);;
  t ← now_isoformat;
  modified ← call_get data "modified_date" t;
  update char (set_modified_date modified);;
  mret char.

(** ** CharacterDatabase *)

(** The body of the loop of [load_all_characters]. *)
Definition load_file (file_path : string) : M () :=
  data ← read_json file_path;
  char ← from_dict data;
  c ← deref char;
  characters_setitem (name c) char.

(** [CharacterDatabase.load_all_characters], with the enumeration that
    [glob] yields. *)
Definition load_all_characters (order : list string) : M () :=
  set_characters [];;
  for_each order load_file.

(** [CharacterDatabase.save_character] *)
Definition save_character (character : loc) : M () :=
  t ← now_isoformat;
  update character (set_modified_date t);;
  c ← deref character;
  stem ← call_replace (name c);
  let filename := stem +:+ ".json" in
  doc ← to_dict character;
  write_json filename doc;;
  c ← deref character;
  characters_setitem (name c) character.

(** [CharacterDatabase.delete_character] *)
Definition delete_character (name : pyval) : M () :=
  stem ← call_replace name;
  let filename := stem +:+ ".json" in
  present ← path_exists filename;
  (if present : bool then unlink filename else mret ());;
  characters_delitem name.

(** [CharacterDatabase.get_character] *)
Definition get_character (name : pyval) : M (option loc) :=
  characters_get name.

(** Python's [sorted] is stable: of two entries with equal keys the one
    that came first stays first.  Insertion from the right, stepping over
    the strictly smaller keys only, computes that list. *)
Fixpoint insert_sorted (x : string * loc) (l : list (string * loc))
    : list (string * loc) :=
  match l with
  | [] => [x]
  | y :: l' =>
      if String.ltb (fst y) (fst x) then y :: insert_sorted x l' else x :: y :: l'
  end.

Fixpoint sorted_by_key (l : list (string * loc)) : list (string * loc) :=
  match l with
  | [] => []
  | x :: l' => insert_sorted x (sorted_by_key l')
  end.

(** The key function [lambda c: c.name.lower()], paired with its argument. *)
Definition sort_key (l : loc) : M (string * loc) :=
  c ← deref l;
  k ← call_lower (name c);
  mret (k, l).

(** [CharacterDatabase.list_characters] *)
Definition list_characters : M (list loc) :=
  d ← get_characters;
  keyed ← map_M sort_key (dict_values d);
  mret (map snd (sorted_by_key keyed)).

(** [CharacterDatabase.__init__]: [mkdir(exist_ok=True)] leaves an existing
    directory as it is, then everything is loaded. *)
Definition CharacterDatabase_init (order : list string) : M () :=
  set_characters [];;
  load_all_characters order.

(** ** Notions used by the statements *)

(** The clock reads valid times, and never runs backwards, over its
    first [n] readings. *)
Definition clock_valid_until (w : World) (n : nat) : Prop :=
  ∀ i, (i < n)%nat → valid_datetime (clock w i).

Definition clock_monotone_until (w : World) (n : nat) : Prop :=
  ∀ i j, (i ≤ j)%nat → (j < n)%nat → datetime_le (clock w i) (clock w j).

(** The clock moves on between any two of its first [n] readings. *)
Definition clock_advances_until (w : World) (n : nat) : Prop :=
  ∀ i j, (i < j)%nat → (j < n)%nat → datetime_lt (clock w i) (clock w j).

(** The file that [save_character] and [delete_character] derive from a
    name. *)
Definition filename_of (s : string) : string := replace_space s +:+ ".json".

(** A name is storable when the file of a character of that name can be
    opened for writing in the data directory. *)
Definition storable (s : string) : Prop := open_error (filename_of s) = None.

(** The record that [from_dict] builds from the dictionary [d] when the
    two readings of the clock it falls back on are [t_created] and
    [t_modified]. *)
Definition record_of (d : gmap string pyval) (t_created t_modified : pyval)
    : Character :=
  mkCharacter
    (default (PStr "") (d !! "name"))
    (default (PStr "") (d !! "class"))
    (default (PInt 1) (d !! "level"))
    (default (PInt 10) (d !! "strength"))
    (default (PInt 10) (d !! "dexterity"))
    (default (PInt 10) (d !! "constitution"))
    (default (PInt 10) (d !! "intelligence"))
    (default (PInt 10) (d !! "wisdom"))
    (default (PInt 10) (d !! "charisma"))
    (default t_created (d !! "created_date"))
    (default t_modified (d !! "modified_date")).

(** The timestamp read at the [i]-th reading of the clock. *)
Definition stamp (w : World) (i : nat) : pyval := PStr (isoformat (clock w i)).

(** The order in which [sorted] leaves the keyed entries. *)
Definition key_le (a b : string * loc) : Prop := str_le a.1 b.1.

(** The key under which [list_characters] sorts the object at [l]. *)
Definition name_key (w : World) (l : loc) : string :=
  match heap w !! l with
  | Some c => match name c with PStr s => str_lower s | _ => "" end
  | None => ""
  end.

(** Every object of the mapping exists and is named by a [str]. *)
Definition names_are_text (w : World) : Prop :=
  ∀ l, l ∈ dict_values (characters w) →
    ∃ c s, heap w !! l = Some c ∧ name c = PStr s.

(** A Python dictionary holds one entry per key. *)
Definition dict_wf (d : pydict) : Prop := NoDup (dict_keys d).


(** The key under which [load_all_characters] files the record read from
    [path]: the hash of the [name] of the document, if the file holds a
    JSON object with a hashable name. *)
Definition file_key (d : gmap string file) (path : string) : option pykey :=
  match d !! path with
  | Some (Json (PDict doc)) => py_hash (default (PStr "") (doc !! "name"))
  | _ => None
  end.

(** The document that the file at [path] holds, if it is a JSON object. *)
Definition file_doc (d : gmap string file) (path : string)
    : option (gmap string pyval) :=
  match d !! path with
  | Some (Json (PDict doc)) => Some doc
  | _ => None
  end.

(** The position of the last occurrence of [k] in [ks]. *)
Fixpoint find_last (k : pykey) (ks : list (option pykey)) : option nat :=
  match ks with
  | [] => None
  | k' :: ks' =>
      match find_last k ks' with
      | Some i => Some (S i)
      | None => if decide (k' = Some k) then Some O else None
      end
  end.

(** The directory holds what [save_character] writes: every record file
    is a JSON object whose name is a [str] that derives the file's own
    path. *)
Definition consistent_dir (d : gmap string file) : Prop :=
  ∀ p, is_Some (d !! p) → glob_match p = true →
    ∃ doc s, d !! p = Some (Json (PDict doc))
             ∧ doc !! "name" = Some (PStr s) ∧ filename_of s = p.

(** What a run of the loop of [load_all_characters] over [order] makes of
    the world [w]: one new object per file, in order, the directory
    untouched, and for every key the object of the last file that has it,
    else the entry that was there before. *)
Record loaded_from (w : World) (order : list string) (w' : World) : Prop := {
  loaded_clock : clock w' = clock w;
  loaded_ticks : ticks w' = (4 * length order + ticks w)%nat;
  loaded_disk : disk w' = disk w;
  loaded_length : length (heap w') = (length (heap w) + length order)%nat;
  loaded_old : ∀ l c, heap w !! l = Some c → heap w' !! l = Some c;
  loaded_new : ∀ i p doc,
    order !! i = Some p → file_doc (disk w) p = Some doc →
    heap w' !! (length (heap w) + i)%nat =
      Some (record_of doc (stamp w (4 * i + 2 + ticks w))
                          (stamp w (4 * i + 3 + ticks w)));
  loaded_lookup : ∀ k,
    dict_lookup k (characters w') =
      match find_last k (map (file_key (disk w)) order) with
      | Some i => Some (length (heap w) + i)%nat
      | None => dict_lookup k (characters w)
      end;
  loaded_wf : dict_wf (characters w) → dict_wf (characters w')
}.

(** The world once [self.characters = {}] has run. *)
Definition cleared (w : World) : World :=
  mkWorld (clock w) (ticks w) (heap w) (disk w) [].

(** ** Example worlds and scenarios *)

(** A clock that ticks one microsecond per reading. *)
Definition example_clock (i : nat) : datetime :=
  mkDatetime 2024 1 2 3 4 5 (N.of_nat i).

Definition example_character (nm : string) (lvl : Z) : Character :=
  mkCharacter (PStr nm) (PStr "Fighter") (PInt lvl) (PInt 16) (PInt 12)
    (PInt 14) (PInt 8) (PInt 10) (PInt 13)
    (PStr "2024-01-01T00:00:00") (PStr "2024-01-01T00:00:00").

(** A fresh store on an empty directory. *)
Definition empty_world : World := mkWorld example_clock 0 [] ∅ [].

(** The truth value of a value, as [if v] tests it. *)
Definition py_truthy (v : pyval) : bool :=
  match v with
  | PNone => false
  | PBool b => b
  | PInt z => negb (z =? 0)%Z
  | PStr s => negb (String.eqb s "")
  | PList l => match l with [] => false | _ :: _ => true end
  | PDict d => negb (size d =? 0)%nat
  end.

(** The Save button of the form, in the branch it takes for a name that
    is not blank: the record being edited is looked up, a record is built
    anew from the fields entered, the creation date of the record being
    edited, if there is one, is copied over, and the record is saved. *)
Definition edit_character
    (editing_name name char_class level strength dexterity constitution
       intelligence wisdom charisma : pyval) : M () :=
  existing ← (if py_truthy editing_name then get_character editing_name
              else mret None);
  char ← Character_init name char_class level strength dexterity constitution
           intelligence wisdom charisma;
  match existing with
  | Some e =>
      ex ← deref e;
      update char (set_created_date (created_date ex))
  | None => mret ()
  end;;
  save_character char.

(** A store that holds one character, "Aria", created at the first
    reading of the clock and saved at the third. *)
Definition aria : Character :=
  mkCharacter (PStr "Aria") (PStr "Bard") (PInt 3) (PInt 10) (PInt 10)
    (PInt 10) (PInt 10) (PInt 10) (PInt 10)
    (PStr (isoformat (example_clock 0))) (PStr (isoformat (example_clock 2))).

Definition aria_world : World :=
  mkWorld example_clock 3 [aria]
    (<[filename_of "Aria" := Json (PDict (dict_of aria))]> ∅)
    [(KStr "Aria", 0%nat)].

(** A store that holds three characters, entered in the order "zed",
    "Anna", "bob". *)
Definition trio_world : World :=
  mkWorld example_clock 9
    [example_character "zed" 1; example_character "Anna" 2;
     example_character "bob" 3]
    ∅
    [(KStr "zed", 0%nat); (KStr "Anna", 1%nat); (KStr "bob", 2%nat)].

(** Two Character objects not yet saved, in a fresh store. *)
Definition pair_world (name1 name2 : string) : World :=
  mkWorld example_clock 4
    [example_character name1 5; example_character name2 6] ∅ [].

(** A directory in which two files hold a record of the same name, and a
    mapping left over from before. *)
Definition clash_dir : gmap string file :=
  <["x.json" := Json (PDict (dict_of (example_character "Aria" 1)))]>
  (<["y.json" := Json (PDict (dict_of (example_character "Aria" 2)))]> ∅).

Definition clash_world : World :=
  mkWorld example_clock 0 [] clash_dir [(KStr "Old", 7%nat)].

(** ** The presentation layer *)

(** [CLASSES] *)
Definition CLASSES : list string :=
  ["Barbarian"; "Bard"; "Cleric"; "Druid"; "Fighter"; "Monk";
   "Paladin"; "Ranger"; "Rogue"; "Sorcerer"; "Warlock"; "Wizard"].

(** [v in CLASSES]: the elements are [str], and only a [str] equals one. *)
Definition in_CLASSES (v : pyval) : bool :=
  match v with
  | PStr s => bool_decide (s ∈ CLASSES)
  | _ => false
  end.

(** [l.index(s)]: the position of the first element equal to [s]. *)
Fixpoint index_of (s : string) (l : list string) : option nat :=
  match l with
  | [] => None
  | x :: l' => if decide (x = s) then Some O else S <$> index_of s l'
  end.

(** [CLASSES.index(v)]; Python raises [ValueError] where this is [None]. *)
Definition CLASSES_index (v : pyval) : option nat :=
  match v with
  | PStr s => index_of s CLASSES
  | _ => None
  end.

(** The index that the form gives to the selectbox of the class:
    [CLASSES.index(existing.char_class) if existing and
     existing.char_class in CLASSES else 0].  After the test, [index]
    finds the class. *)
Definition selectbox_index (existing : option loc) : M nat :=
  match existing with
  | Some e =>
      c ← deref e;
      if in_CLASSES (char_class c)
      then mret (default O (CLASSES_index (char_class c)))
      else mret O
  | None => mret O
  end.

(** [c.isspace()], on the code points below 256: tab, line feed,
    vertical tab, form feed, carriage return, the four separators 28 to
    31, the space, next line (133) and the no-break space (160). *)
Definition py_isspace (c : ascii) : bool :=
  let n := nat_of_ascii c in
  ((9 <=? n)%nat && (n <=? 13)%nat) || ((28 <=? n)%nat && (n <=? 32)%nat)
  || (n =? 133)%nat || (n =? 160)%nat.

Fixpoint lstrip (s : string) : string :=
  match s with
  | EmptyString => EmptyString
  | String c s' => if py_isspace c then lstrip s' else s
  end.

Fixpoint rstrip (s : string) : string :=
  match s with
  | EmptyString => EmptyString
  | String c s' =>
      match rstrip s' with
      | EmptyString => if py_isspace c then EmptyString else String c EmptyString
      | r => String c r
      end
  end.

(** [s.strip()] *)
Definition str_strip (s : string) : string := rstrip (lstrip s).

(** [v.strip()] *)
Definition call_strip (v : pyval) : M string :=
  match v with
  | PStr s => mret (str_strip s)
  | _ => raise AttributeError
  end.

(** The form, from the lookup of the record being edited to the Save
    button: a blank name shows an error and saves nothing ([false]);
    otherwise the record is built from the fields entered, takes the
    creation date of the record being edited, if there is one, and is
    saved ([true], after which the list is shown again). *)
Definition save_button
    (editing_name name char_class level strength dexterity constitution
       intelligence wisdom charisma : pyval) : M bool :=
  existing ← (if py_truthy editing_name then get_character editing_name
              else mret None);
  stripped ← call_strip name;
  if negb (py_truthy (PStr stripped)) then mret false
  else
    char ← Character_init name char_class level strength dexterity
             constitution intelligence wisdom charisma;
    match existing with
    | Some e =>
        ex ← deref e;
        update char (set_created_date (created_date ex))
    | None => mret ()
    end;;
    save_character char;;
    mret true.

(** The Delete button of the list: [db.delete_character(char.name)]. *)
Definition delete_button (char : loc) : M () :=
  c ← deref char;
  delete_character (name c).

(** ** More notions used by the statements *)

(** Every entry of the mapping is filed under the name its object bears
    now. *)
Definition keyed_by_name (w : World) : Prop :=
  ∀ k l, (k, l) ∈ characters w →
    ∃ c, heap w !! l = Some c ∧ py_hash (name c) = Some k.

(** The invariants of the mapping taken together. *)
Definition store_inv (w : World) : Prop :=
  dict_wf (characters w) ∧ names_are_text w ∧ keyed_by_name w.

(** The exception, if any, that the loop of [load_all_characters] raises
    on the file at [path]. *)
Definition load_error (d : gmap string file) (path : string) : option exn :=
  match d !! path with
  | None => Some FileNotFoundError
  | Some Malformed => Some JSONDecodeError
  | Some Undecodable => Some UnicodeDecodeError
  | Some (Json (PDict doc)) =>
      match py_hash (default (PStr "") (doc !! "name")) with
      | Some _ => None
      | None => Some TypeError
      end
  | Some (Json _) => Some AttributeError
  end.

(** The keys that [to_dict] writes and [from_dict] reads. *)
Definition record_keys : list string :=
  ["name"; "class"; "level"; "strength"; "dexterity"; "constitution";
   "intelligence"; "wisdom"; "charisma"; "created_date"; "modified_date"].

(** A directory with a record file, a file that is not JSON and a file
    enumerated after it. *)
Definition broken_dir : gmap string file :=
  <["a.json" := Json (PDict (dict_of (example_character "Anna" 2)))]>
  (<["b.json" := Malformed]>
  (<["c.json" := Json (PDict (dict_of (example_character "Cora" 3)))]> ∅)).

Definition broken_world : World :=
  mkWorld example_clock 0 [] broken_dir [(KStr "Old", 7%nat)].

(** A character whose name is not text, as [from_dict] builds from a
    document with a number for name. *)
Definition numbered_character : Character :=
  mkCharacter (PInt 5) (PStr "Bard") (PInt 1) (PInt 10) (PInt 10)
    (PInt 10) (PInt 10) (PInt 10) (PInt 10)
    (PStr "2024-01-01T00:00:00") (PStr "2024-01-01T00:00:00").

Definition numbered_world : World :=
  mkWorld example_clock 4 [example_character "Anna" 2; numbered_character] ∅
    [(KStr "Anna", 0%nat); (KInt 5, 1%nat)].

(** Every character of [s] is white space. *)
Fixpoint all_space (s : string) : bool :=
  match s with
  | EmptyString => true
  | String c s' => py_isspace c && all_space s'
  end.

(** A character of an unknown class, as read from a file. *)
Definition classless_world : World :=
  mkWorld example_clock 4
    [mkCharacter (PStr "Nix") (PStr "") (PInt 1) (PInt 10) (PInt 10)
       (PInt 10) (PInt 10) (PInt 10) (PInt 10)
       (PStr "2024-01-01T00:00:00") (PStr "2024-01-01T00:00:00");
     example_character "Aria" 5]
    ∅ [(KStr "Nix", 0%nat); (KStr "Aria", 1%nat)].

(** A store that holds "Aria", whose record lives in a file that its
    name does not derive. *)
Definition stray_world : World :=
  mkWorld example_clock 4 [example_character "Aria" 5]
    (<["x.json" := Json (PDict (dict_of (example_character "Aria" 5)))]> ∅)
    [(KStr "Aria", 0%nat)].


(** The world [w] over the directory [d]. *)
Definition set_disk (d : gmap string file) (w : World) : World :=
  mkWorld (clock w) (ticks w) (heap w) d (characters w).

(** The world in which [from_dict] has built an object from [doc] that
    was then not filed. *)
Definition half_loaded (w : World) (doc : gmap string pyval) : World :=
  mkWorld (clock w) (4 + ticks w)
    (heap w ++ [record_of doc (stamp w (2 + ticks w)) (stamp w (3 + ticks w))])%list
    (disk w) (characters w).

(** The state in which the loop of [load_all_characters] stops at a file
    it cannot load: as it found it, but for the object already built when
    it is the name that cannot be a key. *)
Definition stopped_at (w : World) (path : string) : World :=
  match file_doc (disk w) path with
  | Some doc => half_loaded w doc
  | None => w
  end.

(** A name of 256 letters: with or without the extension, longer than a
    file name can be. *)
Definition long_name : string := string_of_list_ascii (replicate 256 "a"%char).

(** A name with a NUL character in it. *)
Definition nul_name : string := String "a" (String "000" "b").

(** Characters of these names, not yet saved, and one of a name that can
    be stored. *)
Definition unstorable_world : World :=
  mkWorld example_clock 6
    [example_character long_name 1; example_character nul_name 2;
     example_character long_name 3; example_character "Cora" 4]
    ∅ [].


(** A store that holds characters whose names differ in case only, and
    one between them. *)
Definition case_world : World :=
  mkWorld example_clock 8
    [example_character "bob" 1; example_character "Anna" 2;
     example_character "Bob" 3; example_character "BOB" 4]
    ∅
    [(KStr "bob", 0%nat); (KStr "Anna", 1%nat); (KStr "Bob", 2%nat);
     (KStr "BOB", 3%nat)].

(** A directory with a record file, a file that is not text and a file
    enumerated after it. *)
Definition garbled_dir : gmap string file :=
  <["a.json" := Json (PDict (dict_of (example_character "Anna" 2)))]>
  (<["b.json" := Undecodable]>
  (<["c.json" := Json (PDict (dict_of (example_character "Cora" 3)))]> ∅)).

Definition garbled_world : World :=
  mkWorld example_clock 0 [] garbled_dir [(KStr "Old", 7%nat)].

(** Three saves, then a listing. *)
Definition saved_then_listed (l1 l2 l3 : loc) : M (list loc) :=
  save_character l1;; save_character l2;; save_character l3;;
  list_characters.

(** Names with a letter of Latin-1 beyond ASCII: "Éz" and "éa". *)
Definition E_acute_z : string := String "201" "z".
Definition e_acute_a : string := String "233" "a".

(** White space of Latin-1 around a name: a no-break space and a tab
    before "x y", a next-line character and a space after it. *)
Definition padded_name : string :=
  String "160" (String "009" "x y") +:+ String "133" " ".
(** ** The order of strings *)

Lemma ascii_compare_refl (c : ascii) : Ascii.compare c c = Eq.
Proof. unfold Ascii.compare. apply N.compare_refl. Qed.

Lemma ascii_compare_eq (c1 c2 : ascii) : Ascii.compare c1 c2 = Eq → c1 = c2.
Proof.
  unfold Ascii.compare. intros H%N.compare_eq.
  rewrite <- (ascii_N_embedding c1), <- (ascii_N_embedding c2). by rewrite H.
Qed.

Lemma ascii_compare_lt (c1 c2 : ascii) :
  Ascii.compare c1 c2 = Lt ↔ (N_of_ascii c1 < N_of_ascii c2)%N.
Proof. unfold Ascii.compare. apply N.compare_lt_iff. Qed.

Lemma ascii_compare_gt (c1 c2 : ascii) :
  Ascii.compare c1 c2 = Gt ↔ (N_of_ascii c2 < N_of_ascii c1)%N.
Proof. unfold Ascii.compare. apply N.compare_gt_iff. Qed.

Lemma str_compare_refl (s : string) : String.compare s s = Eq.
Proof. induction s as [|c s IH]; simpl; [done|]. by rewrite ascii_compare_refl. Qed.

Lemma str_compare_cons (c : ascii) (s t : string) :
  String.compare (String c s) (String c t) = String.compare s t.
Proof. simpl. by rewrite ascii_compare_refl. Qed.

Lemma str_compare_app (p s t : string) :
  String.compare (p +:+ s) (p +:+ t) = String.compare s t.
Proof. induction p as [|c p IH]; simpl; [done|]. by rewrite ascii_compare_refl. Qed.

Lemma str_lt_trans (s t u : string) : str_lt s t → str_lt t u → str_lt s u.
Proof.
  unfold str_lt. revert t u.
  induction s as [|a s IH]; intros [|b t] [|c u]; simpl; try done.
  destruct (Ascii.compare a b) eqn:Hab; [|clear IH|done].
  - apply ascii_compare_eq in Hab as ->.
    destruct (Ascii.compare b c); [apply IH|done|done].
  - intros _. destruct (Ascii.compare b c) eqn:Hbc; try done.
    + apply ascii_compare_eq in Hbc as <-. by rewrite Hab.
    + intros _.
      pose proof (proj1 (ascii_compare_lt _ _) Hab).
      pose proof (proj1 (ascii_compare_lt _ _) Hbc).
      assert (Hac : Ascii.compare a c = Lt) by (apply ascii_compare_lt; lia).
      by rewrite Hac.
Qed.

Lemma str_le_lt_or_eq (s t : string) : str_le s t ↔ str_lt s t ∨ s = t.
Proof.
  unfold str_le, str_lt. split.
  - destruct (String.compare s t) eqn:H; [|by left|done].
    right. by apply String.compare_eq_iff.
  - intros [-> | ->]; [done|]. by rewrite str_compare_refl.
Qed.

Lemma str_le_refl (s : string) : str_le s s.
Proof. apply str_le_lt_or_eq. by right. Qed.

Lemma str_le_trans (s t u : string) : str_le s t → str_le t u → str_le s u.
Proof.
  rewrite !str_le_lt_or_eq. intros [H1 | ->] [H2 | ->]; eauto using str_lt_trans.
Qed.

Lemma ltb_false_le (s t : string) : String.ltb s t = false → str_le t s.
Proof.
  unfold String.ltb, str_le. rewrite (String.compare_antisym t s).
  destruct (String.compare s t); simpl; done.
Qed.

Lemma ltb_true_le (s t : string) : String.ltb s t = true → str_le s t.
Proof. unfold String.ltb, str_le. destruct (String.compare s t); done. Qed.

(** ** Timestamps are ordered like the times they print *)

Lemma digit_lt (a b : N) :
  (a < b)%N → (b < 10)%N → Ascii.compare (digit a) (digit b) = Lt.
Proof.
  intros Hab Hb. apply ascii_compare_lt. unfold digit.
  rewrite !N_ascii_embedding by lia. lia.
Qed.

Lemma str_app_cons (c : ascii) (s t : string) :
  String c s +:+ t = String c (s +:+ t).
Proof. reflexivity. Qed.

Lemma str_app_assoc (s t u : string) : (s +:+ t) +:+ u = s +:+ (t +:+ u).
Proof. induction s as [|c s IH]; [done|]. by rewrite !str_app_cons, IH. Qed.

Lemma str_app_nil_r (s : string) : s +:+ "" = s.
Proof. induction s as [|c s IH]; [done|]. by rewrite str_app_cons, IH. Qed.

Lemma pad_snoc (w : nat) (n : N) (s : string) :
  pad (S w) n +:+ s = pad w (n / 10) +:+ String (digit (n mod 10)) s.
Proof. cbn [pad]. by rewrite str_app_assoc. Qed.

Lemma pad_lt (w : nat) (n m : N) (s t : string) :
  (n < m)%N → (m < 10 ^ N.of_nat w)%N →
  String.compare (pad w n +:+ s) (pad w m +:+ t) = Lt.
Proof.
  revert n m s t. induction w as [|w IH]; intros n m s t Hnm Hm.
  - simpl in Hm. lia.
  - rewrite !pad_snoc.
    rewrite Nat2N.inj_succ, N.pow_succ_r' in Hm.
    assert (Hdiv : (n / 10 ≤ m / 10)%N) by (apply N.Div0.div_le_mono; lia).
    pose proof (N.Div0.div_mod n 10) as Hn.
    pose proof (N.Div0.div_mod m 10) as Hm'.
    pose proof (N.mod_upper_bound n 10 ltac:(lia)).
    pose proof (N.mod_upper_bound m 10 ltac:(lia)).
    destruct (decide (n / 10 = m / 10)%N) as [Heq | Hne].
    + rewrite Heq, str_compare_app. simpl.
      rewrite digit_lt; [done | lia | lia].
    + apply IH; [lia|]. apply N.Div0.div_lt_upper_bound. lia.
Qed.

Lemma sep_app (c : ascii) (s : string) : String c "" +:+ s = String c s.
Proof. reflexivity. Qed.

Ltac pad_field :=
  apply pad_lt; [ lia | vm_compute (10 ^ N.of_nat _)%N; lia ].

Lemma isoformat_lt (a b : datetime) :
  valid_datetime a → valid_datetime b → datetime_lt a b →
  str_lt (isoformat a) (isoformat b).
Proof.
  destruct a as [y1 mo1 d1 h1 mi1 s1 us1], b as [y2 mo2 d2 h2 mi2 s2 us2].
  unfold valid_datetime, datetime_lt, str_lt, isoformat;
    cbn [year month day hour minute second microsecond datetime_fields lex_lt].
  intros Va Vb H. rewrite !sep_app.
  destruct H as [H | [-> H]]; [pad_field|].
  rewrite str_compare_app, str_compare_cons.
  destruct H as [H | [-> H]]; [pad_field|].
  rewrite str_compare_app, str_compare_cons.
  destruct H as [H | [-> H]]; [pad_field|].
  rewrite str_compare_app, str_compare_cons.
  destruct H as [H | [-> H]]; [pad_field|].
  rewrite str_compare_app, str_compare_cons.
  destruct H as [H | [-> H]]; [pad_field|].
  rewrite str_compare_app, str_compare_cons.
  destruct H as [H | [-> H]]; [pad_field|].
  rewrite str_compare_app.
  destruct H as [H | [_ []]].
  destruct (N.eqb_spec us1 0) as [-> | Hz1], (N.eqb_spec us2 0) as [-> | Hz2];
    try lia; [done|].
  rewrite str_compare_cons.
  rewrite <- (str_app_nil_r (pad 6 us1)), <- (str_app_nil_r (pad 6 us2)).
  pad_field.
Qed.

Lemma isoformat_le (a b : datetime) :
  valid_datetime a → valid_datetime b → datetime_le a b →
  str_le (isoformat a) (isoformat b).
Proof.
  intros Va Vb [-> | H]; [apply str_le_refl|].
  apply str_le_lt_or_eq. left. by apply isoformat_lt.
Qed.

(** ** Running computations *)

Lemma bind_ok {A B} (m : M A) (f : A → M B) w a w' :
  m w = (Ok a, w') → (m ≫= f) w = f a w'.
Proof. intros H. unfold mbind, M_bind. by rewrite H. Qed.

Lemma bind_raise {A B} (m : M A) (f : A → M B) w e w' :
  m w = (Raise e, w') → (m ≫= f) w = (Raise e, w').
Proof. intros H. unfold mbind, M_bind. by rewrite H. Qed.

Lemma deref_ok w l c : heap w !! l = Some c → deref l w = (Ok c, w).
Proof. intros H. unfold deref. by rewrite H. Qed.

Lemma update_ok w l c f :
  heap w !! l = Some c →
  update l f w =
    (Ok (), mkWorld (clock w) (ticks w) (<[l := f c]> (heap w)) (disk w)
              (characters w)).
Proof. intros H. unfold update. by rewrite H. Qed.

Ltac wsimpl := cbn [heap ticks clock disk characters fst snd].
Ltac mstep_with tac := erewrite bind_ok; [ | tac ]; wsimpl.
Ltac mstep := mstep_with ltac:(reflexivity).

Lemma heap_insert_eq (h : list Character) l c c' :
  h !! l = Some c → <[l := c']> h !! l = Some c'.
Proof. intros H. apply list_lookup_insert_eq. by eapply lookup_lt_Some. Qed.

Lemma heap_snoc_eq (h : list Character) c : (h ++ [c])%list !! length h = Some c.
Proof. by rewrite lookup_app_r, Nat.sub_diag by lia. Qed.

Lemma heap_snoc_old (h : list Character) l c c' :
  h !! l = Some c → (h ++ [c'])%list !! l = Some c.
Proof. intros H. by rewrite lookup_app_l by (by eapply lookup_lt_Some). Qed.

Lemma heap_insert_snoc (h : list Character) c c' :
  <[length h := c']> (h ++ [c])%list = (h ++ [c'])%list.
Proof.
  rewrite <- (Nat.add_0_r (length h)) at 1. by rewrite insert_app_r.
Qed.

(** *** What each method computes *)

Lemma Character_init_spec w n cl lv st dx co it wi ch :
  Character_init n cl lv st dx co it wi ch w =
    (Ok (length (heap w)),
     mkWorld (clock w) (S (S (ticks w)))
       (heap w ++ [mkCharacter n cl lv st dx co it wi ch
                     (stamp w (ticks w)) (stamp w (S (ticks w)))])
       (disk w) (characters w)).
Proof. reflexivity. Qed.

Lemma from_dict_spec w d :
  from_dict (PDict d) w =
    (Ok (length (heap w)),
     mkWorld (clock w) (4 + ticks w)
       (heap w ++ [record_of d (stamp w (2 + ticks w)) (stamp w (3 + ticks w))])
       (disk w) (characters w)).
Proof.
  unfold from_dict. do 9 mstep.
  mstep_with ltac:(apply Character_init_spec).
  do 2 mstep.
  mstep_with ltac:(apply update_ok, heap_snoc_eq).
  rewrite heap_insert_snoc.
  do 2 mstep.
  mstep_with ltac:(apply update_ok, heap_snoc_eq).
  rewrite heap_insert_snoc.
  reflexivity.
Qed.

Lemma from_dict_not_dict w v :
  (∀ d, v ≠ PDict d) → from_dict v w = (Raise AttributeError, w).
Proof. intros H. destruct v; try done. by destruct (H d). Qed.

Lemma to_dict_spec w l c :
  heap w !! l = Some c → to_dict l w = (Ok (PDict (dict_of c)), w).
Proof. intros H. unfold to_dict. by mstep_with ltac:(by apply deref_ok). Qed.

Lemma write_json_ok w path doc :
  open_error path = None →
  write_json path doc w =
    (Ok (), mkWorld (clock w) (ticks w) (heap w) (<[path := Json doc]> (disk w))
              (characters w)).
Proof. intros H. unfold write_json. by rewrite H. Qed.

Lemma write_json_raise w path doc e :
  open_error path = Some e → write_json path doc w = (Raise e, w).
Proof. intros H. unfold write_json. by rewrite H. Qed.

Lemma save_character_spec w l c s :
  heap w !! l = Some c → name c = PStr s → storable s →
  save_character l w =
    (Ok (),
     mkWorld (clock w) (S (ticks w))
       (<[l := set_modified_date (stamp w (ticks w)) c]> (heap w))
       (<[filename_of s :=
            Json (PDict (dict_of (set_modified_date (stamp w (ticks w)) c)))]>
          (disk w))
       (dict_insert (KStr s) l (characters w))).
Proof.
  intros Hl Hn Hs.
  pose proof (heap_insert_eq _ _ _ (set_modified_date (stamp w (ticks w)) c) Hl)
    as Hl'.
  unfold save_character.
  mstep. mstep_with ltac:(by apply update_ok).
  mstep_with ltac:(by apply deref_ok).
  cbn [name set_modified_date]. rewrite Hn.
  mstep. mstep_with ltac:(by apply to_dict_spec).
  mstep_with ltac:(by apply write_json_ok).
  mstep_with ltac:(by apply deref_ok).
  cbn [name set_modified_date]. rewrite Hn. reflexivity.
Qed.

Lemma save_character_unstorable w l c s e :
  heap w !! l = Some c → name c = PStr s →
  open_error (filename_of s) = Some e →
  save_character l w =
    (Raise e,
     mkWorld (clock w) (S (ticks w))
       (<[l := set_modified_date (stamp w (ticks w)) c]> (heap w))
       (disk w) (characters w)).
Proof.
  intros Hl Hn Hs.
  pose proof (heap_insert_eq _ _ _ (set_modified_date (stamp w (ticks w)) c) Hl)
    as Hl'.
  unfold save_character.
  mstep. mstep_with ltac:(by apply update_ok).
  mstep_with ltac:(by apply deref_ok).
  cbn [name set_modified_date]. rewrite Hn.
  mstep. mstep_with ltac:(by apply to_dict_spec).
  erewrite bind_raise; [reflexivity|]. by apply write_json_raise.
Qed.

Lemma save_character_not_str w l c :
  heap w !! l = Some c → (∀ s, name c ≠ PStr s) →
  fst (save_character l w) = Raise AttributeError.
Proof.
  intros Hl Hn.
  pose proof (heap_insert_eq _ _ _ (set_modified_date (stamp w (ticks w)) c) Hl)
    as Hl'.
  unfold save_character.
  mstep. mstep_with ltac:(by apply update_ok).
  mstep_with ltac:(by apply deref_ok).
  cbn [name set_modified_date].
  destruct (name c) eqn:E; try done. by destruct (Hn s).
Qed.

(** ** Dictionaries *)

Lemma dict_lookup_insert_eq k v d : dict_lookup k (dict_insert k v d) = Some v.
Proof.
  induction d as [|[k' v'] d IH]; simpl.
  - by rewrite decide_True.
  - destruct (decide (k' = k)) as [-> | Hne]; simpl.
    + by rewrite decide_True.
    + by rewrite decide_False.
Qed.

Lemma dict_lookup_insert_ne k k' v d :
  k ≠ k' → dict_lookup k' (dict_insert k v d) = dict_lookup k' d.
Proof.
  intros Hne. induction d as [|[k0 v0] d IH]; simpl.
  - by rewrite decide_False.
  - destruct (decide (k0 = k)) as [-> | Hne0]; simpl.
    + by rewrite !decide_False.
    + by rewrite IH.
Qed.

Lemma dict_lookup_None k d : dict_lookup k d = None ↔ k ∉ dict_keys d.
Proof.
  induction d as [|[k' v'] d IH]; simpl.
  - split; [intros _; apply not_elem_of_nil | done].
  - rewrite not_elem_of_cons. destruct (decide (k' = k)) as [-> | Hne].
    + split; [done | by intros []].
    + rewrite IH. split; [by intros ?; split | by intros [_ ?]].
Qed.

Lemma dict_lookup_Some_elem k v d : dict_lookup k d = Some v → (k, v) ∈ d.
Proof.
  induction d as [|[k' v'] d IH]; simpl; [done|].
  destruct (decide (k' = k)) as [-> | Hne].
  - intros [= ->]. apply list_elem_of_here.
  - intros H. apply list_elem_of_further. auto.
Qed.

Lemma dict_keys_insert k v d :
  dict_keys (dict_insert k v d) =
    match dict_lookup k d with
    | Some _ => dict_keys d
    | None => (dict_keys d ++ [k])%list
    end.
Proof.
  induction d as [|[k' v'] d IH]; simpl; [done|].
  destruct (decide (k' = k)) as [-> | Hne]; simpl; [done|].
  rewrite IH. by destruct (dict_lookup k d).
Qed.

Lemma dict_wf_insert k v d : dict_wf d → dict_wf (dict_insert k v d).
Proof.
  unfold dict_wf. intros Hwf. rewrite dict_keys_insert.
  destruct (dict_lookup k d) eqn:E; [done|].
  apply NoDup_app. split_and!; [done | | apply NoDup_singleton].
  intros k' Hin Hin'%list_elem_of_singleton. subst.
  by apply dict_lookup_None in E.
Qed.

Lemma dict_lookup_remove_eq k d :
  dict_wf d → dict_lookup k (dict_remove k d) = None.
Proof.
  unfold dict_wf. induction d as [|[k' v'] d IH]; simpl; [done|].
  intros [Hnotin Hwf]%NoDup_cons.
  destruct (decide (k' = k)) as [-> | Hne]; simpl.
  - by apply dict_lookup_None.
  - rewrite decide_False by done. auto.
Qed.

Lemma dict_lookup_remove_ne k k' d :
  k ≠ k' → dict_lookup k' (dict_remove k d) = dict_lookup k' d.
Proof.
  intros Hne. induction d as [|[k0 v0] d IH]; simpl; [done|].
  destruct (decide (k0 = k)) as [-> | Hne0]; simpl.
  - by rewrite decide_False.
  - by rewrite IH.
Qed.



(** ** The store: get and delete *)

Lemma get_character_spec w s :
  get_character (PStr s) w = (Ok (dict_lookup (KStr s) (characters w)), w).
Proof. reflexivity. Qed.

Lemma delete_character_disk w s :
  (if bool_decide (is_Some (disk w !! filename_of s))
   then unlink (filename_of s) else mret ()) w =
    (Ok (), mkWorld (clock w) (ticks w) (heap w)
              (delete (filename_of s) (disk w)) (characters w)).
Proof.
  case_bool_decide as Hex.
  - destruct Hex as [f Hf]. unfold unlink. by rewrite Hf.
  - rewrite delete_id by (by apply eq_None_not_Some).
    by destruct w.
Qed.

Lemma path_exists_ok w p :
  is_Some (disk w !! p) ∨ stat_error p = None →
  path_exists p w = (Ok (bool_decide (is_Some (disk w !! p))), w).
Proof.
  intros H. unfold path_exists. destruct (disk w !! p) as [f|] eqn:E.
  - by rewrite bool_decide_eq_true_2.
  - destruct H as [[f Hf]|H]; [done|]. rewrite H.
    rewrite bool_decide_eq_false_2; [done|]. by intros [f Hf].
Qed.

Lemma path_exists_raise w p e :
  disk w !! p = None → stat_error p = Some e →
  path_exists p w = (Raise e, w).
Proof. intros Hd He. unfold path_exists. by rewrite Hd, He. Qed.

Lemma delete_character_spec w s l :
  is_Some (disk w !! filename_of s) ∨ stat_error (filename_of s) = None →
  dict_lookup (KStr s) (characters w) = Some l →
  delete_character (PStr s) w =
    (Ok (), mkWorld (clock w) (ticks w) (heap w)
              (delete (filename_of s) (disk w))
              (dict_remove (KStr s) (characters w))).
Proof.
  intros Hp Hl. unfold delete_character. mstep.
  mstep_with ltac:(by apply path_exists_ok).
  mstep_with ltac:(apply delete_character_disk).
  unfold characters_delitem. do 2 mstep. by rewrite Hl.
Qed.

Lemma delete_character_missing w s :
  is_Some (disk w !! filename_of s) ∨ stat_error (filename_of s) = None →
  dict_lookup (KStr s) (characters w) = None →
  delete_character (PStr s) w =
    (Raise KeyError,
     mkWorld (clock w) (ticks w) (heap w)
       (delete (filename_of s) (disk w)) (characters w)).
Proof.
  intros Hp Hl. unfold delete_character. mstep.
  mstep_with ltac:(by apply path_exists_ok).
  mstep_with ltac:(apply delete_character_disk).
  unfold characters_delitem. do 2 mstep. by rewrite Hl.
Qed.

Lemma delete_character_unreachable w s e :
  disk w !! filename_of s = None → stat_error (filename_of s) = Some e →
  delete_character (PStr s) w = (Raise e, w).
Proof.
  intros Hd He. unfold delete_character. mstep.
  erewrite bind_raise; [reflexivity|]. by apply path_exists_raise.
Qed.

(** ** Sorting *)

Lemma insert_sorted_perm x l : insert_sorted x l ≡ₚ x :: l.
Proof.
  induction l as [|y l IH]; simpl; [done|].
  destruct (String.ltb y.1 x.1); [|done].
  rewrite IH. apply Permutation_swap.
Qed.

Lemma sorted_by_key_perm l : sorted_by_key l ≡ₚ l.
Proof.
  induction l as [|x l IH]; simpl; [done|].
  by rewrite insert_sorted_perm, IH.
Qed.

Lemma insert_sorted_sorted x l :
  StronglySorted key_le l → StronglySorted key_le (insert_sorted x l).
Proof.
  induction 1 as [|y l Hs IH Hall]; simpl.
  - repeat constructor.
  - destruct (String.ltb y.1 x.1) eqn:E.
    + constructor; [done|].
      rewrite insert_sorted_perm. constructor; [|done].
      by apply ltb_true_le.
    + apply ltb_false_le in E.
      constructor; [by constructor|].
      constructor; [done|].
      eapply Forall_impl; [exact Hall|].
      intros z Hz. by eapply str_le_trans.
Qed.

Lemma sorted_by_key_sorted l : StronglySorted key_le (sorted_by_key l).
Proof.
  induction l as [|x l IH]; simpl; [constructor|].
  by apply insert_sorted_sorted.
Qed.

(** Stability: entries with the same key keep their relative order. *)
Lemma insert_sorted_stable k x l :
  filter (λ e : string * loc, e.1 = k) (insert_sorted x l) =
  filter (λ e : string * loc, e.1 = k) (x :: l).
Proof.
  set (P := λ e : string * loc, e.1 = k).
  induction l as [|y l IH]; cbn [insert_sorted]; [done|].
  destruct (String.ltb y.1 x.1) eqn:E; [|done].
  destruct (decide (P y)) as [Hy | Hy], (decide (P x)) as [Hx | Hx].
  - exfalso. unfold P in Hx, Hy. rewrite Hy, Hx in E. unfold String.ltb in E.
    by rewrite str_compare_refl in E.
  - rewrite (filter_cons_True P y), (filter_cons_False P x) by done.
    rewrite (filter_cons_True P y) by done.
    rewrite IH. by rewrite (filter_cons_False P x).
  - rewrite (filter_cons_False P y), (filter_cons_True P x) by done.
    rewrite (filter_cons_False P y) by done.
    rewrite IH. by rewrite (filter_cons_True P x).
  - rewrite (filter_cons_False P y), (filter_cons_False P x) by done.
    rewrite (filter_cons_False P y) by done.
    rewrite IH. by rewrite (filter_cons_False P x).
Qed.

Lemma sorted_by_key_stable k l :
  filter (λ e : string * loc, e.1 = k) (sorted_by_key l) =
  filter (λ e : string * loc, e.1 = k) l.
Proof.
  set (P := λ e : string * loc, e.1 = k).
  induction l as [|x l IH]; cbn [sorted_by_key]; [done|].
  fold P in IH. unfold P at 1. rewrite insert_sorted_stable. fold P.
  destruct (decide (P x)).
  - rewrite !(filter_cons_True P x) by done. by rewrite IH.
  - rewrite !(filter_cons_False P x) by done. by rewrite IH.
Qed.

(** ** The store: list *)

Lemma sort_key_spec w l c s :
  heap w !! l = Some c → name c = PStr s →
  sort_key l w = (Ok (name_key w l, l), w).
Proof.
  intros Hl Hn. unfold sort_key, name_key.
  mstep_with ltac:(by apply deref_ok). rewrite Hl, Hn. reflexivity.
Qed.

Lemma map_M_sort_key w ls :
  (∀ l, l ∈ ls → ∃ c s, heap w !! l = Some c ∧ name c = PStr s) →
  map_M sort_key ls w = (Ok (map (λ l, (name_key w l, l)) ls), w).
Proof.
  induction ls as [|l ls IH]; intros H; simpl; [done|].
  destruct (H l) as (c & s & Hl & Hn); [apply list_elem_of_here|].
  mstep_with ltac:(by eapply sort_key_spec).
  mstep_with ltac:(apply IH; intros; apply H; by apply list_elem_of_further).
  reflexivity.
Qed.

Lemma list_characters_spec w :
  names_are_text w →
  list_characters w =
    (Ok (map snd (sorted_by_key
                    (map (λ l, (name_key w l, l)) (dict_values (characters w))))),
     w).
Proof.
  intros H. unfold list_characters. mstep.
  mstep_with ltac:(by apply map_M_sort_key). reflexivity.
Qed.

(** ** The store: load *)

Lemma file_key_doc d p k :
  file_key d p = Some k →
  ∃ doc, file_doc d p = Some doc
         ∧ d !! p = Some (Json (PDict doc))
         ∧ py_hash (default (PStr "") (doc !! "name")) = Some k.
Proof.
  unfold file_key, file_doc.
  destruct (d !! p) as [[[] | |]|]; try done. eauto.
Qed.

Lemma load_file_spec w p doc k :
  disk w !! p = Some (Json (PDict doc)) →
  py_hash (default (PStr "") (doc !! "name")) = Some k →
  load_file p w =
    (Ok (),
     mkWorld (clock w) (4 + ticks w)
       (heap w ++ [record_of doc (stamp w (2 + ticks w)) (stamp w (3 + ticks w))])
       (disk w) (dict_insert k (length (heap w)) (characters w))).
Proof.
  intros Hp Hk. unfold load_file.
  mstep_with ltac:(unfold read_json; by rewrite Hp).
  mstep_with ltac:(apply from_dict_spec).
  mstep_with ltac:(apply deref_ok, heap_snoc_eq).
  cbn [name record_of]. unfold characters_setitem, hash_of. rewrite Hk.
  reflexivity.
Qed.

Lemma load_file_malformed w p :
  disk w !! p = Some Malformed → load_file p w = (Raise JSONDecodeError, w).
Proof.
  intros Hp. unfold load_file.
  erewrite bind_raise; [done|]. unfold read_json. by rewrite Hp.
Qed.

Lemma load_file_undecodable w p :
  disk w !! p = Some Undecodable →
  load_file p w = (Raise UnicodeDecodeError, w).
Proof.
  intros Hp. unfold load_file.
  erewrite bind_raise; [done|]. unfold read_json. by rewrite Hp.
Qed.

Lemma for_each_load_file order : ∀ w,
  (∀ p, p ∈ order → is_Some (file_key (disk w) p)) →
  ∃ w', for_each order load_file w = (Ok (), w') ∧ loaded_from w order w'.
Proof.
  induction order as [|p order IH]; intros w Hall.
  - exists w. split; [done|]. split; try done; intros i ? ?; by rewrite lookup_nil.
  - destruct (Hall p) as [k Hk]; [apply list_elem_of_here|].
    destruct (file_key_doc _ _ _ Hk) as (doc & Hdoc & Hp & Hh).
    pose proof (load_file_spec w p doc k Hp Hh) as Hstep.
    set (w1 := mkWorld _ _ _ _ _) in Hstep.
    destruct (IH w1) as (w' & Hrun & Hw').
    { intros q Hq. apply Hall. by apply list_elem_of_further. }
    exists w'. split.
    { cbn [for_each]. by erewrite bind_ok. }
    destruct Hw' as [Hc Ht Hd Hlen Hold Hnew Hlook Hwf].
    subst w1. cbn [heap ticks clock disk characters] in *.
    rewrite length_app in *. cbn [length] in *.
    split; cbn [length].
    + done.
    + rewrite Ht. lia.
    + done.
    + rewrite Hlen. lia.
    + intros l c Hl. apply Hold. by apply heap_snoc_old.
    + intros [|i] q doc' Hi Hq.
      * cbn in Hi. injection Hi as <-. rewrite Hdoc in Hq. injection Hq as <-.
        rewrite Nat.add_0_r. apply Hold. apply heap_snoc_eq.
      * cbn in Hi. specialize (Hnew i q doc' Hi Hq).
        replace (length (heap w) + S i)%nat with (length (heap w) + 1 + i)%nat
          by lia.
        rewrite Hnew. unfold stamp. do 4 f_equal; f_equal; lia.
    + intros k'. rewrite Hlook. cbn [map find_last].
      destruct (find_last k' (map (file_key (disk w)) order)) as [i|].
      * f_equal. lia.
      * rewrite Hk. destruct (decide (Some k = Some k')) as [[= ->] | Hne].
        -- rewrite dict_lookup_insert_eq. f_equal. lia.
        -- apply dict_lookup_insert_ne. congruence.
    + intros Hwf0. by apply Hwf, dict_wf_insert.
Qed.

Lemma find_last_None k ks : find_last k ks = None ↔ Some k ∉ ks.
Proof.
  induction ks as [|k' ks IH]; cbn [find_last].
  - split; [intros _; apply not_elem_of_nil | done].
  - rewrite not_elem_of_cons. destruct (find_last k ks) as [i|].
    + split; [done|]. intros [_ H]. by apply IH in H.
    + destruct (decide (k' = Some k)) as [-> | Hne].
      * split; [done | by intros [? _]].
      * split; [|done]. intros _. split; [congruence | by apply IH].
Qed.

Lemma find_last_Some k ks i :
  find_last k ks = Some i ↔
  ks !! i = Some (Some k) ∧ ∀ j, (i < j)%nat → ks !! j ≠ Some (Some k).
Proof.
  revert i. induction ks as [|k' ks IH]; intros i; cbn [find_last].
  - split; [done | by intros [? _]].
  - destruct (find_last k ks) as [i'|] eqn:E.
    + destruct (proj1 (IH i') eq_refl) as [Hi' Hlast'].
      split.
      * intros [= <-]. split; [done|].
        intros [|j] Hj; [lia|]. cbn. apply Hlast'. lia.
      * intros [Hi Hlast]. destruct i as [|i].
        -- destruct (Hlast (S i')); [lia | done].
        -- cbn in Hi. assert (Heq : Some i' = Some i); [|by injection Heq as ->].
           apply IH. split; [done|].
           intros j Hj. apply (Hlast (S j)). lia.
    + assert (Hnone : ∀ j, ks !! j ≠ Some (Some k)).
      { intros j Hj. apply find_last_None in E. apply E.
        by eapply list_elem_of_lookup_2. }
      destruct (decide (k' = Some k)) as [-> | Hne].
      * split.
        -- intros [= <-]. split; [done|]. intros [|j] Hj; [lia|]. apply Hnone.
        -- intros [Hi _]. destruct i; [done|]. cbn in Hi. by destruct (Hnone i).
      * split; [done|]. intros [Hi _]. destruct i; cbn in Hi.
        -- congruence.
        -- by destruct (Hnone i).
Qed.

Lemma load_all_characters_spec w order :
  (∀ p, p ∈ order → is_Some (file_key (disk w) p)) →
  ∃ w', load_all_characters order w = (Ok (), w')
        ∧ loaded_from (cleared w) order w'.
Proof.
  intros Hall. destruct (for_each_load_file order (cleared w) Hall) as (w' & Hrun & Hw').
  exists w'. split; [|done]. unfold load_all_characters. by mstep.
Qed.

Lemma record_of_dict_of c t1 t2 : record_of (dict_of c) t1 t2 = c.
Proof. by destruct c. Qed.

Lemma example_clock_valid n : (n < 1000)%nat → valid_datetime (example_clock n).
Proof.
  unfold valid_datetime, example_clock;
    cbn [year month day hour minute second microsecond].
  lia.
Qed.

Lemma example_clock_advances i j :
  (i < j)%nat → datetime_lt (example_clock i) (example_clock j).
Proof.
  intros Hij. unfold datetime_lt, example_clock; cbn.
  do 6 (right; split; [done|]). left. lia.
Qed.

(** ** Directories written by the store *)

(** Every directory has an enumeration. *)
Lemma glob_enumerates_exists (d : gmap string file) :
  ∃ order, glob_enumerates d order.
Proof.
  exists (elements (filter (λ p, glob_match p = true) (dom d))). split.
  - apply NoDup_elements.
  - intros p. rewrite elem_of_elements, elem_of_filter, elem_of_dom. tauto.
Qed.

Lemma dict_of_name c : dict_of c !! "name" = Some (name c).
Proof. reflexivity. Qed.

Lemma consistent_dir_empty : consistent_dir ∅.
Proof. intros p [f Hf]. by rewrite lookup_empty in Hf. Qed.

Lemma consistent_dir_save d c s :
  consistent_dir d → name c = PStr s →
  consistent_dir (<[filename_of s := Json (PDict (dict_of c))]> d).
Proof.
  intros Hd Hn p Hp Hg. destruct (decide (p = filename_of s)) as [-> | Hne].
  - exists (dict_of c), s. rewrite lookup_insert_eq, dict_of_name, Hn. done.
  - rewrite lookup_insert_ne in Hp |- * by done. by apply Hd.
Qed.

Lemma consistent_dir_delete d p : consistent_dir d → consistent_dir (delete p d).
Proof.
  intros Hd q Hq Hg. destruct (decide (q = p)) as [-> | Hne].
  - rewrite lookup_delete_eq in Hq. by destruct Hq.
  - rewrite lookup_delete_ne in Hq |- * by done. by apply Hd.
Qed.

Lemma consistent_file_key d p :
  consistent_dir d → is_Some (d !! p) → glob_match p = true →
  ∃ doc s, d !! p = Some (Json (PDict doc)) ∧ doc !! "name" = Some (PStr s)
           ∧ filename_of s = p ∧ file_key d p = Some (KStr s).
Proof.
  intros Hd Hp Hg. destruct (Hd p Hp Hg) as (doc & s & Hdoc & Hname & Hfile).
  exists doc, s. split_and!; try done.
  unfold file_key. by rewrite Hdoc, Hname.
Qed.

(** Reloading a directory written by the store: a name is found again
    exactly when its file holds a record of that name, and then with the
    fields of that record. *)
Lemma reload_consistent w order :
  consistent_dir (disk w) → glob_enumerates (disk w) order →
  ∃ w', load_all_characters order w = (Ok (), w')
    ∧ loaded_from (cleared w) order w'
    ∧ (∀ s doc,
         disk w !! filename_of s = Some (Json (PDict doc)) →
         doc !! "name" = Some (PStr s) →
         glob_match (filename_of s) = true →
         ∃ r t1 t2, dict_lookup (KStr s) (characters w') = Some r
                    ∧ heap w' !! r = Some (record_of doc t1 t2)
                    ∧ heap w !! r = None)
    ∧ (∀ s,
         (∀ doc, disk w !! filename_of s = Some (Json (PDict doc)) →
                 doc !! "name" ≠ Some (PStr s)) →
         dict_lookup (KStr s) (characters w') = None).
Proof.
  intros Hd [Hnodup Horder].
  assert (Hkeys : ∀ p, p ∈ order →
            ∃ doc s, disk w !! p = Some (Json (PDict doc))
                     ∧ doc !! "name" = Some (PStr s)
                     ∧ filename_of s = p ∧ file_key (disk w) p = Some (KStr s)).
  { intros p [Hp Hg]%Horder. by apply consistent_file_key. }
  destruct (load_all_characters_spec w order) as (w' & Hrun & Hw').
  { intros p Hp. destruct (Hkeys p Hp) as (? & ? & _ & _ & _ & ->). eauto. }
  exists w'. split_and!; [done | done | |].
  - intros s doc Hfile Hname Hg.
    assert (Hin : filename_of s ∈ order) by (apply Horder; split; [eauto | done]).
    apply list_elem_of_lookup in Hin as [i Hi].
    assert (Hlast : find_last (KStr s) (map (file_key (disk w)) order) = Some i).
    { apply find_last_Some. split.
      - rewrite list_lookup_fmap, Hi. cbn.
        unfold file_key. by rewrite Hfile, Hname.
      - intros j Hj Hkj. rewrite list_lookup_fmap in Hkj.
        destruct (order !! j) as [q|] eqn:Hq; [|done]. cbn in Hkj.
        destruct (Hkeys q) as (doc' & s' & _ & _ & Hfile' & Hkey').
        { by eapply list_elem_of_lookup_2. }
        assert (s' = s) as -> by congruence.
        subst q. pose proof (NoDup_lookup _ _ _ _ Hnodup Hi Hq). lia. }
    exists (length (heap w) + i)%nat. eexists _, _. split_and!.
    + rewrite (loaded_lookup _ _ _ Hw'). cbn [disk cleared]. by rewrite Hlast.
    + apply (loaded_new _ _ _ Hw' i (filename_of s) doc Hi).
      unfold file_doc. cbn [disk cleared]. by rewrite Hfile.
    + apply lookup_ge_None. lia.
  - intros s Hnot.
    rewrite (loaded_lookup _ _ _ Hw'). cbn [disk cleared characters].
    assert (Hnone : find_last (KStr s) (map (file_key (disk w)) order) = None).
    { apply find_last_None. intros Hin.
      apply list_elem_of_fmap in Hin as (q & Hkq & Hq).
      destruct (Hkeys q Hq) as (doc' & s' & Hdoc' & Hname' & Hfile' & Hkey').
      assert (s' = s) as -> by congruence.
      subst q. by eapply Hnot. }
    by rewrite Hnone.
Qed.

(** ** Editing *)

Lemma edit_character_spec w s e ce cl lv st dx co it wi ch :
  s ≠ "" → storable s →
  dict_lookup (KStr s) (characters w) = Some e →
  heap w !! e = Some ce →
  edit_character (PStr s) (PStr s) cl lv st dx co it wi ch w =
    (Ok (),
     let c := mkCharacter (PStr s) cl lv st dx co it wi ch
                (created_date ce) (stamp w (2 + ticks w)) in
     mkWorld (clock w) (3 + ticks w) (heap w ++ [c])
       (<[filename_of s := Json (PDict (dict_of c))]> (disk w))
       (dict_insert (KStr s) (length (heap w)) (characters w))).
Proof.
  intros Hs Hst He Hce. unfold edit_character. cbn [py_truthy].
  rewrite (proj2 (String.eqb_neq s "") Hs). cbn [negb].
  mstep_with ltac:(apply get_character_spec). rewrite He.
  mstep_with ltac:(apply Character_init_spec).
  mstep_with ltac:(erewrite bind_ok; cycle 1;
    [ by apply deref_ok, heap_snoc_old | apply update_ok, heap_snoc_eq ]).
  rewrite heap_insert_snoc.
  erewrite save_character_spec; wsimpl;
    [ | apply heap_snoc_eq | reflexivity | exact Hst ].
  rewrite heap_insert_snoc. reflexivity.
Qed.

(** ** The store keeps its invariants *)

Lemma dict_wf_remove k d : dict_wf d → dict_wf (dict_remove k d).
Proof.
  unfold dict_wf. induction d as [|[k' v'] d IH]; [done|].
  change (dict_keys ((k', v') :: d)) with (k' :: dict_keys d).
  intros [Hnotin Hwf]%NoDup_cons. cbn [dict_remove].
  destruct (decide (k' = k)) as [-> | Hne]; [done|].
  change (NoDup (k' :: dict_keys (dict_remove k d))).
  apply NoDup_cons. split; [|auto].
  intros Hin. apply Hnotin. clear -Hin.
  induction d as [|[k0 v0] d IH]; [done|].
  cbn [dict_remove] in Hin. destruct (decide (k0 = k)) as [-> | Hne].
  - by apply list_elem_of_further.
  - change (k' ∈ k0 :: dict_keys (dict_remove k d)) in Hin.
    apply elem_of_cons in Hin as [-> | Hin]; [apply list_elem_of_here|].
    apply list_elem_of_further. auto.
Qed.

Lemma dict_lookup_elem k v d : dict_wf d → (k, v) ∈ d → dict_lookup k d = Some v.
Proof.
  unfold dict_wf. induction d as [|[k' v'] d IH]; [by intros _ ?%elem_of_nil|].
  change (dict_keys ((k', v') :: d)) with (k' :: dict_keys d).
  intros [Hnotin Hwf]%NoDup_cons Hin. cbn [dict_lookup].
  apply elem_of_cons in Hin as [[= -> ->] | Hin].
  - by rewrite decide_True.
  - destruct (decide (k' = k)) as [-> | Hne]; [|auto].
    destruct Hnotin. apply list_elem_of_fmap. by exists (k, v).
Qed.

Lemma dict_values_insert l k v d :
  l ∈ dict_values (dict_insert k v d) → l = v ∨ l ∈ dict_values d.
Proof.
  unfold dict_values. induction d as [|[k' v'] d IH]; cbn [dict_insert map snd].
  - intros ->%list_elem_of_singleton. by left.
  - destruct (decide (k' = k)) as [-> | Hne]; cbn [map snd].
    + intros [-> | Hin]%elem_of_cons; [by left|].
      right. by apply list_elem_of_further.
    + intros [-> | Hin]%elem_of_cons; [right; apply list_elem_of_here|].
      destruct (IH Hin) as [-> | Hin']; [by left|].
      right. by apply list_elem_of_further.
Qed.

Lemma dict_values_remove l k d :
  l ∈ dict_values (dict_remove k d) → l ∈ dict_values d.
Proof.
  unfold dict_values. induction d as [|[k' v'] d IH]; cbn [dict_remove map snd].
  - done.
  - destruct (decide (k' = k)) as [-> | Hne]; cbn [map snd].
    + by apply list_elem_of_further.
    + intros [-> | Hin]%elem_of_cons; [apply list_elem_of_here|].
      apply list_elem_of_further. auto.
Qed.

(** The names of the mapping stay text under the operations of the
    store, and the mapping stays a dictionary. *)
Lemma names_are_text_save w l c s :
  names_are_text w → heap w !! l = Some c → name c = PStr s →
  names_are_text (snd (save_character l w)).
Proof.
  intros Htext Hl Hn.
  assert (Hsaved : <[l := set_modified_date (stamp w (ticks w)) c]> (heap w) !! l
                   = Some (set_modified_date (stamp w (ticks w)) c))
    by (by eapply heap_insert_eq).
  destruct (open_error (filename_of s)) as [e|] eqn:Hs.
  - rewrite (save_character_unstorable w l c s e Hl Hn Hs).
    cbn [snd]. intros l' Hl'. cbn [characters heap] in *.
    destruct (decide (l' = l)) as [-> | Hne]; [by eexists _, s|].
    destruct (Htext l' Hl') as (c0 & s0 & Hc0 & Hs0).
    exists c0, s0. by rewrite list_lookup_insert_ne.
  - rewrite (save_character_spec w l c s Hl Hn Hs).
    cbn [snd]. intros l' Hl'. cbn [characters heap] in *.
    destruct (decide (l' = l)) as [-> | Hne]; [by eexists _, s|].
    apply dict_values_insert in Hl' as [-> | Hin]; [done|].
    destruct (Htext l' Hin) as (c0 & s0 & Hc0 & Hs0).
    exists c0, s0. by rewrite list_lookup_insert_ne.
Qed.

(** A delete either gets past the test of the file, or raises at it and
    leaves everything as it was. *)
Lemma delete_character_cases w s :
  (is_Some (disk w !! filename_of s) ∨ stat_error (filename_of s) = None)
  ∨ ∃ e, delete_character (PStr s) w = (Raise e, w).
Proof.
  destruct (disk w !! filename_of s) as [f|] eqn:Hd; [left; left; eauto|].
  destruct (stat_error (filename_of s)) as [e|] eqn:He; [|by left; right].
  right. exists e. by apply delete_character_unreachable.
Qed.

Lemma names_are_text_delete w s :
  names_are_text w → names_are_text (snd (delete_character (PStr s) w)).
Proof.
  intros Htext.
  destruct (delete_character_cases w s) as [Hp | [e ->]]; [|exact Htext].
  destruct (dict_lookup (KStr s) (characters w)) as [l|] eqn:E.
  - rewrite (delete_character_spec w s l Hp E). cbn [snd].
    intros l' Hl'. cbn [characters heap] in *.
    by apply Htext, (dict_values_remove _ (KStr s)).
  - rewrite (delete_character_missing w s Hp E). exact Htext.
Qed.

Lemma names_are_text_reload w order :
  consistent_dir (disk w) → glob_enumerates (disk w) order →
  names_are_text (snd (load_all_characters order w))
  ∧ dict_wf (characters (snd (load_all_characters order w))).
Proof.
  intros Hdir Horder.
  destruct (reload_consistent w order Hdir Horder) as (w' & Hrun & Hw' & _ & _).
  rewrite Hrun. cbn [snd].
  assert (Hwf : dict_wf (characters w')).
  { apply (loaded_wf _ _ _ Hw'). apply NoDup_nil_2. }
  split; [|done].
  intros l Hl. apply list_elem_of_fmap in Hl as ([k l'] & -> & Hin). cbn [snd].
  pose proof (dict_lookup_elem k l' _ Hwf Hin) as Hlook.
  rewrite (loaded_lookup _ _ _ Hw') in Hlook. cbn [disk cleared characters heap] in Hlook.
  destruct (find_last k (map (file_key (disk w)) order)) as [i|] eqn:E; [|done].
  injection Hlook as <-.
  apply find_last_Some in E as [Hi _]. rewrite list_lookup_fmap in Hi.
  destruct (order !! i) as [p|] eqn:Hp; [|done].
  destruct Horder as [_ Horder].
  assert (Hin' : p ∈ order) by (by eapply list_elem_of_lookup_2).
  apply Horder in Hin' as [Hfile Hg].
  destruct (consistent_file_key _ _ Hdir Hfile Hg) as (doc & s & Hdoc & Hname & _ & _).
  eexists _, s. split.
  - apply (loaded_new _ _ _ Hw' i p doc Hp).
    unfold file_doc. cbn [disk cleared]. by rewrite Hdoc.
  - cbn [name record_of]. by rewrite Hname.
Qed.

(** ** Facts about the example worlds *)

Lemma aria_world_consistent : consistent_dir (disk aria_world).
Proof. apply consistent_dir_save; [apply consistent_dir_empty | reflexivity]. Qed.

Lemma clash_dir_enumeration : glob_enumerates clash_dir ["x.json"; "y.json"].
Proof.
  split.
  - apply NoDup_cons. split; [|apply NoDup_singleton].
    intros Hin%list_elem_of_singleton. discriminate.
  - intros p. unfold clash_dir. split.
    + intros Hp. apply elem_of_cons in Hp as [-> | Hp].
      { split; [|reflexivity]. rewrite lookup_insert_eq. eauto. }
      apply list_elem_of_singleton in Hp as ->.
      split; [|reflexivity].
      rewrite lookup_insert_ne, lookup_insert_eq by discriminate. eauto.
    + intros [Hp _].
      destruct (decide (p = "x.json")) as [-> | Hx]; [apply list_elem_of_here|].
      rewrite lookup_insert_ne in Hp by done.
      destruct (decide (p = "y.json")) as [-> | Hy].
      { apply list_elem_of_further, list_elem_of_here. }
      rewrite lookup_insert_ne, lookup_empty in Hp by done. by destruct Hp.
Qed.

(** ** Loops and failures *)

Lemma for_each_app {A} (body : A → M ()) (l1 l2 : list A) w :
  for_each (l1 ++ l2)%list body w =
    (for_each l1 body ≫= λ _, for_each l2 body) w.
Proof.
  revert w. induction l1 as [|x l1 IH]; intros w; cbn [for_each app].
  - reflexivity.
  - unfold mbind, M_bind in *. destruct (body x w) as [[[]|e] w1]; [|done].
    apply IH.
Qed.

Lemma load_file_error w p e :
  load_error (disk w) p = Some e →
  ∃ w', load_file p w = (Raise e, w')
        ∧ characters w' = characters w ∧ disk w' = disk w
        ∧ ∀ l c, heap w !! l = Some c → heap w' !! l = Some c.
Proof.
  unfold load_error, load_file. intros He.
  destruct (disk w !! p) as [[doc| |]|] eqn:Hp.
  - destruct doc as [| | | | |d];
      try (injection He as <-; exists w; split; [|done];
           erewrite bind_ok; [|unfold read_json; by rewrite Hp]; reflexivity).
    destruct (py_hash (default (PStr "") (d !! "name"))) eqn:Hk; [done|].
    injection He as <-. eexists. split.
    + mstep_with ltac:(unfold read_json; by rewrite Hp).
      mstep_with ltac:(apply from_dict_spec).
      mstep_with ltac:(apply deref_ok, heap_snoc_eq).
      cbn [name record_of]. unfold characters_setitem, hash_of. rewrite Hk.
      reflexivity.
    + cbn [characters disk heap]. split_and!; try done.
      intros l c Hl. by apply heap_snoc_old.
  - injection He as <-. exists w. split; [|done].
    erewrite bind_raise; [done|]. unfold read_json. by rewrite Hp.
  - injection He as <-. exists w. split; [|done].
    erewrite bind_raise; [done|]. unfold read_json. by rewrite Hp.
  - injection He as <-. exists w. split; [|done].
    erewrite bind_raise; [done|]. unfold read_json. by rewrite Hp.
Qed.

Lemma load_error_None d p :
  load_error d p = None ↔ is_Some (file_key d p).
Proof.
  unfold load_error, file_key.
  destruct (d !! p) as [[[] | |]|]; try (split; [done | by intros [? ?]]).
  destruct (py_hash _); split; eauto; done.
Qed.

(** Whatever it meets, the body of the loop writes no file and leaves the
    objects that exist alone. *)
Lemma load_file_reads_only w p :
  disk (snd (load_file p w)) = disk w
  ∧ ∀ l c, heap w !! l = Some c → heap (snd (load_file p w)) !! l = Some c.
Proof.
  destruct (load_error (disk w) p) as [e|] eqn:He.
  - destruct (load_file_error w p e He) as (w' & Hrun & _ & Hd & Hh).
    rewrite Hrun. done.
  - apply load_error_None in He as [k Hk].
    destruct (file_key_doc _ _ _ Hk) as (doc & _ & Hp & Hh).
    rewrite (load_file_spec w p doc k Hp Hh). cbn [snd disk heap].
    split; [done|]. intros l c Hl. by apply heap_snoc_old.
Qed.

Lemma for_each_load_file_reads_only order : ∀ w,
  disk (snd (for_each order load_file w)) = disk w
  ∧ ∀ l c, heap w !! l = Some c →
      heap (snd (for_each order load_file w)) !! l = Some c.
Proof.
  induction order as [|p order IH]; intros w; cbn [for_each].
  - done.
  - destruct (load_file_reads_only w p) as [Hd Hh].
    unfold mbind, M_bind. destruct (load_file p w) as [[[]|e] w1]; cbn [snd] in *.
    + destruct (IH w1) as [Hd1 Hh1]. split; [congruence | auto].
    + done.
Qed.

(** ** More on dictionaries *)

Lemma dict_insert_same k v d : dict_lookup k d = Some v → dict_insert k v d = d.
Proof.
  induction d as [|[k' v'] d IH]; cbn [dict_lookup dict_insert]; [done|].
  destruct (decide (k' = k)) as [-> | Hne].
  - by intros [= ->].
  - intros H. by rewrite IH.
Qed.

Lemma dict_remove_insert k v d :
  dict_lookup k d = None → dict_remove k (dict_insert k v d) = d.
Proof.
  induction d as [|[k' v'] d IH]; cbn [dict_lookup dict_insert dict_remove].
  - intros _. by rewrite decide_True.
  - destruct (decide (k' = k)) as [-> | Hne]; [done|].
    intros H. cbn [dict_remove]. rewrite decide_False by done. by rewrite IH.
Qed.

Lemma dict_length_insert k v d :
  length (dict_insert k v d) =
    match dict_lookup k d with
    | Some _ => length d
    | None => S (length d)
    end.
Proof.
  induction d as [|[k' v'] d IH]; cbn [dict_lookup dict_insert length]; [done|].
  destruct (decide (k' = k)) as [-> | Hne]; cbn [length]; [done|].
  rewrite IH. by destruct (dict_lookup k d).
Qed.

Lemma dict_length_remove k v d :
  dict_lookup k d = Some v → S (length (dict_remove k d)) = length d.
Proof.
  induction d as [|[k' v'] d IH]; cbn [dict_lookup dict_remove length]; [done|].
  destruct (decide (k' = k)) as [-> | Hne]; cbn [length]; [done|].
  intros H. by rewrite IH.
Qed.

Lemma dict_elem_insert k v e d :
  e ∈ dict_insert k v d → e = (k, v) ∨ e ∈ d.
Proof.
  induction d as [|[k0 v0] d IH]; cbn [dict_insert].
  - intros ->%list_elem_of_singleton. by left.
  - destruct (decide (k0 = k)) as [-> | Hne].
    + intros [-> | Hin]%elem_of_cons; [by left|].
      right. by apply list_elem_of_further.
    + intros [-> | Hin]%elem_of_cons; [right; apply list_elem_of_here|].
      destruct (IH Hin) as [-> | Hin']; [by left|].
      right. by apply list_elem_of_further.
Qed.

Lemma dict_elem_remove k e d : e ∈ dict_remove k d → e ∈ d.
Proof.
  induction d as [|[k0 v0] d IH]; cbn [dict_remove]; [done|].
  destruct (decide (k0 = k)) as [-> | Hne].
  - by apply list_elem_of_further.
  - intros [-> | Hin]%elem_of_cons; [apply list_elem_of_here|].
    apply list_elem_of_further. auto.
Qed.

(** ** The mapping stays filed by name *)

Lemma keyed_by_name_save w l c s :
  keyed_by_name w → heap w !! l = Some c → name c = PStr s →
  keyed_by_name (snd (save_character l w)).
Proof.
  intros Hkeyed Hl Hn.
  assert (Hsaved : <[l := set_modified_date (stamp w (ticks w)) c]> (heap w) !! l
                   = Some (set_modified_date (stamp w (ticks w)) c))
    by (by eapply heap_insert_eq).
  assert (Hold : ∀ k' l', (k', l') ∈ characters w →
            ∃ c0, <[l := set_modified_date (stamp w (ticks w)) c]> (heap w) !! l'
                    = Some c0 ∧ py_hash (name c0) = Some k').
  { intros k' l' Hin. destruct (Hkeyed k' l' Hin) as (c0 & Hc0 & Hk0).
    destruct (decide (l' = l)) as [-> | Hne].
    - eexists. split; [exact Hsaved|]. cbn [name set_modified_date]. congruence.
    - exists c0. by rewrite list_lookup_insert_ne. }
  destruct (open_error (filename_of s)) as [e|] eqn:Hs.
  - rewrite (save_character_unstorable w l c s e Hl Hn Hs).
    cbn [snd]. intros k' l' Hin. cbn [characters heap] in *. by apply Hold.
  - rewrite (save_character_spec w l c s Hl Hn Hs).
    cbn [snd]. intros k' l' Hin. cbn [characters heap] in *.
    apply dict_elem_insert in Hin as [[= -> ->] | Hin]; [|by apply Hold].
    eexists. split; [exact Hsaved|]. cbn [name set_modified_date]. by rewrite Hn.
Qed.

Lemma keyed_by_name_delete w s :
  keyed_by_name w → keyed_by_name (snd (delete_character (PStr s) w)).
Proof.
  intros Hkeyed.
  destruct (delete_character_cases w s) as [Hp | [e ->]]; [|exact Hkeyed].
  destruct (dict_lookup (KStr s) (characters w)) as [l|] eqn:E.
  - rewrite (delete_character_spec w s l Hp E). cbn [snd].
    intros k' l' Hin. cbn [characters heap] in *.
    by apply Hkeyed, (dict_elem_remove (KStr s)).
  - rewrite (delete_character_missing w s Hp E). exact Hkeyed.
Qed.

Lemma keyed_by_name_loaded w order w' :
  loaded_from (cleared w) order w' → keyed_by_name w'.
Proof.
  intros Hw' k l Hin.
  assert (Hwf : dict_wf (characters w')).
  { apply (loaded_wf _ _ _ Hw'). apply NoDup_nil_2. }
  pose proof (dict_lookup_elem k l _ Hwf Hin) as Hlook.
  rewrite (loaded_lookup _ _ _ Hw') in Hlook.
  cbn [disk cleared characters heap] in Hlook.
  destruct (find_last k (map (file_key (disk w)) order)) as [i|] eqn:E; [|done].
  injection Hlook as <-.
  apply find_last_Some in E as [Hi _]. rewrite list_lookup_fmap in Hi.
  destruct (order !! i) as [p|] eqn:Hp; [|done]. cbn in Hi. injection Hi as Hi.
  destruct (file_key_doc _ _ _ Hi) as (doc & Hdoc & _ & Hk).
  eexists. split.
  - exact (loaded_new _ _ _ Hw' i p doc Hp Hdoc).
  - exact Hk.
Qed.

(** ** Listing a mapping with a name that is not text *)

Lemma map_M_sort_key_bad w ls :
  (∀ l, l ∈ ls → is_Some (heap w !! l)) →
  (∃ l c, l ∈ ls ∧ heap w !! l = Some c ∧ ∀ s, name c ≠ PStr s) →
  map_M sort_key ls w = (Raise AttributeError, w).
Proof.
  induction ls as [|l ls IH]; intros Hvalid (l0 & c0 & Hin & Hc0 & Hbad).
  - by apply elem_of_nil in Hin.
  - destruct (Hvalid l) as [c Hc]; [apply list_elem_of_here|].
    cbn [map_M]. destruct (name c) as [| | |s| |] eqn:Hn;
      try (erewrite bind_raise; [done|]; unfold sort_key;
           erewrite bind_ok; [|by apply deref_ok]; by rewrite Hn).
    mstep_with ltac:(by eapply sort_key_spec).
    erewrite bind_raise; [done|]. apply IH.
    + intros l' Hl'. apply Hvalid. by apply list_elem_of_further.
    + apply elem_of_cons in Hin as [-> | Hin].
      * rewrite Hc in Hc0. injection Hc0 as <-. by destruct (Hbad s).
      * eauto.
Qed.

(** Projecting the keyed entries commutes with picking a key. *)
Lemma filter_key_snd w k (L : list (string * loc)) :
  (∀ e, e ∈ L → e.1 = name_key w e.2) →
  map snd (filter (λ e : string * loc, e.1 = k) L) =
  filter (λ l, name_key w l = k) (map snd L).
Proof.
  induction L as [|e L IH]; intros HL; [done|].
  assert (He : e.1 = name_key w e.2) by apply HL, list_elem_of_here.
  assert (HL' : ∀ e', e' ∈ L → e'.1 = name_key w e'.2).
  { intros e' He'. by apply HL, list_elem_of_further. }
  cbn [map]. destruct (decide (e.1 = k)) as [Hk | Hk].
  - rewrite (filter_cons_True (λ e : string * loc, e.1 = k)) by done.
    rewrite (filter_cons_True (λ l, name_key w l = k)) by congruence.
    cbn [map]. by rewrite IH.
  - rewrite (filter_cons_False (λ e : string * loc, e.1 = k)) by done.
    rewrite (filter_cons_False (λ l, name_key w l = k)) by congruence.
    by rewrite IH.
Qed.

(** ** Facts about the example worlds, continued *)

Lemma trio_world_wf : dict_wf (characters trio_world).
Proof. unfold dict_wf. by apply (bool_decide_unpack _). Qed.

Lemma trio_world_text : names_are_text trio_world.
Proof.
  intros l Hl. cbn in Hl.
  apply elem_of_cons in Hl as [-> | Hl]; [by eexists _, _|].
  apply elem_of_cons in Hl as [-> | Hl]; [by eexists _, _|].
  apply elem_of_cons in Hl as [-> | Hl]; [by eexists _, _|].
  by apply elem_of_nil in Hl.
Qed.

Lemma trio_world_keyed : keyed_by_name trio_world.
Proof.
  intros k l Hl. cbn in Hl.
  apply elem_of_cons in Hl as [[= -> ->] | Hl]; [by eexists|].
  apply elem_of_cons in Hl as [[= -> ->] | Hl]; [by eexists|].
  apply elem_of_cons in Hl as [[= -> ->] | Hl]; [by eexists|].
  by apply elem_of_nil in Hl.
Qed.

Lemma trio_world_inv : store_inv trio_world.
Proof. split_and!; [apply trio_world_wf | apply trio_world_text | apply trio_world_keyed]. Qed.

(** ** File names and glob *)

Lemma str_length_app (s t : string) :
  String.length (s +:+ t) = (String.length s + String.length t)%nat.
Proof. induction s as [|c s IH]; [done|]. rewrite str_app_cons. cbn. by rewrite IH. Qed.

Lemma substring_all (s : string) : substring 0 (String.length s) s = s.
Proof. induction s as [|c s IH]; [done|]. cbn. by rewrite IH. Qed.

Lemma substring_app_r (s t : string) :
  substring (String.length s) (String.length t) (s +:+ t) = t.
Proof.
  induction s as [|c s IH]; [apply substring_all|].
  rewrite str_app_cons. cbn [String.length substring]. exact IH.
Qed.

Lemma endswith_app (s t : string) : endswith (s +:+ t) t = true.
Proof.
  unfold endswith. rewrite str_length_app.
  replace (String.length s + String.length t - String.length t)%nat
    with (String.length s) by lia.
  rewrite substring_app_r, String.eqb_refl.
  apply andb_true_intro. split; [|done]. apply Nat.leb_le. lia.
Qed.

Lemma contains_char_app c (s t : string) :
  contains_char c (s +:+ t) = contains_char c s || contains_char c t.
Proof.
  induction s as [|a s IH]; [done|].
  rewrite str_app_cons. cbn [contains_char]. by rewrite IH, orb_assoc.
Qed.

Lemma contains_slash_replace_space (s : string) :
  contains_char "/" (replace_space s) = contains_char "/" s.
Proof.
  unfold replace_space. induction s as [|a s IH]; [done|].
  cbn [map_string contains_char]. rewrite IH. f_equal.
  destruct (Ascii.eqb_spec a " ") as [-> | Hne]; done.
Qed.

Lemma glob_match_filename_of (s : string) :
  glob_match (filename_of s) = negb (contains_char "/" s).
Proof.
  unfold glob_match, filename_of. rewrite endswith_app. cbn [andb].
  rewrite contains_char_app, contains_slash_replace_space.
  change (contains_char "/" ".json") with false. by rewrite orb_false_r.
Qed.

(** ** The constructor of the store *)

Lemma CharacterDatabase_init_load order w :
  CharacterDatabase_init order w = load_all_characters order w.
Proof.
  unfold CharacterDatabase_init. mstep.
  unfold load_all_characters. by do 2 mstep.
Qed.

Lemma dict_insert_new k v d :
  dict_lookup k d = None → dict_insert k v d = (d ++ [(k, v)])%list.
Proof.
  induction d as [|[k' v'] d IH]; cbn [dict_lookup dict_insert]; [done|].
  destruct (decide (k' = k)) as [-> | Hne]; [done|].
  intros H. by rewrite IH.
Qed.

(** Files with pairwise different names are filed one after the other. *)
Lemma for_each_load_file_keys order : ∀ w w' ks,
  for_each order load_file w = (Ok (), w') →
  map (file_key (disk w)) order = Some <$> ks →
  NoDup (dict_keys (characters w) ++ ks) →
  dict_keys (characters w') = (dict_keys (characters w) ++ ks)%list.
Proof.
  induction order as [|p order IH]; intros w w' ks Hrun Hks Hnodup.
  - destruct ks; [|done]. cbn in Hrun. injection Hrun as <-.
    by rewrite app_nil_r.
  - destruct ks as [|k ks]; [done|]. cbn [map fmap list_fmap] in Hks.
    injection Hks as Hk Hks.
    destruct (file_key_doc _ _ _ Hk) as (doc & _ & Hp & Hh).
    cbn [for_each] in Hrun.
    erewrite bind_ok in Hrun; [|by apply (load_file_spec w p doc k)].
    apply NoDup_app in Hnodup as (Hnd1 & Hdisj & Hnd2).
    apply NoDup_cons in Hnd2 as [Hk_ks Hnd2].
    assert (Hnew : dict_lookup k (characters w) = None).
    { apply dict_lookup_None. intros Hin. apply (Hdisj k Hin), list_elem_of_here. }
    rewrite (IH _ w' ks Hrun); cbn [characters disk].
    + rewrite dict_insert_new by done. unfold dict_keys.
      rewrite map_app. cbn [map fst]. by rewrite <- app_assoc.
    + exact Hks.
    + rewrite dict_insert_new by done. unfold dict_keys in *.
      rewrite map_app. cbn [map fst]. rewrite <- app_assoc. cbn [app].
      apply NoDup_app. split_and!; [done | |].
      * intros k' Hin [-> | Hin']%elem_of_cons.
        -- apply (Hdisj k Hin), list_elem_of_here.
        -- apply (Hdisj k' Hin). by apply list_elem_of_further.
      * by apply NoDup_cons.
Qed.

Lemma filename_of_inj_names (names : list string) :
  NoDup (filename_of <$> names) → NoDup (KStr <$> names).
Proof.
  induction names as [|s names IH]; [intros _; apply NoDup_nil_2|].
  cbn [fmap list_fmap]. intros [Hnotin Hnd]%NoDup_cons.
  apply NoDup_cons. split; [|auto].
  intros (s' & [= <-] & Hin)%list_elem_of_fmap.
  apply Hnotin. apply list_elem_of_fmap. by exists s.
Qed.

(** The names held by the files of a directory written by the store, in
    the order of an enumeration. *)
Lemma consistent_dir_names d order :
  consistent_dir d → glob_enumerates d order →
  ∃ names, order = filename_of <$> names
           ∧ map (file_key d) order = Some <$> (KStr <$> names).
Proof.
  intros Hd [_ Horder].
  assert (Hall : ∀ p, p ∈ order → ∃ s, filename_of s = p ∧ file_key d p = Some (KStr s)).
  { intros p [Hp Hg]%Horder.
    destruct (consistent_file_key d p Hd Hp Hg) as (? & s & _ & _ & ? & ?). eauto. }
  clear Horder. induction order as [|p order IH].
  - by exists [].
  - destruct (Hall p) as (s & Hs & Hk); [apply list_elem_of_here|].
    destruct IH as (names & Ho & Hks).
    { intros q Hq. by apply Hall, list_elem_of_further. }
    exists (s :: names). cbn [fmap list_fmap map]. by rewrite Hs, Hk, <- Ho, Hks.
Qed.

(** ** Blank names *)

Lemma lstrip_all_space s : all_space s = true → lstrip s = "".
Proof.
  induction s as [|c s IH]; [done|]. cbn [all_space lstrip].
  intros [Hc Hs]%andb_prop. rewrite Hc. auto.
Qed.

Lemma lstrip_not_all_space s :
  all_space s = false → ∃ c r, lstrip s = String c r ∧ py_isspace c = false.
Proof.
  induction s as [|c s IH]; [done|]. cbn [all_space lstrip].
  destruct (py_isspace c) eqn:Hc; cbn [andb]; [auto | eauto].
Qed.

Lemma rstrip_keeps_head c r : py_isspace c = false → rstrip (String c r) ≠ "".
Proof. intros Hc. cbn [rstrip]. rewrite Hc. by destruct (rstrip r). Qed.

Lemma str_strip_empty s : str_strip s = "" ↔ all_space s = true.
Proof.
  unfold str_strip. split.
  - intros Hs. destruct (all_space s) eqn:E; [done|].
    destruct (lstrip_not_all_space s E) as (c & r & Hl & Hc).
    rewrite Hl in Hs. by destruct (rstrip_keeps_head c r Hc).
  - intros Hs. by rewrite lstrip_all_space.
Qed.

(** ** The form *)

Lemma save_button_lookup w v :
  is_Some (py_hash v) →
  ∃ existing,
    (if py_truthy v then get_character v else mret None) w = (Ok existing, w)
    ∧ (py_truthy v = false → existing = None)
    ∧ (∀ k, py_truthy v = true → py_hash v = Some k →
         existing = dict_lookup k (characters w)).
Proof.
  intros [k Hk]. destruct (py_truthy v) eqn:Ht.
  - exists (dict_lookup k (characters w)). split_and!; [|done|].
    + unfold get_character, characters_get, hash_of. rewrite Hk. reflexivity.
    + intros k' _ Hk'. congruence.
  - exists None. split_and!; done.
Qed.

(** What the Save button does with a name that is not blank, given the
    record being edited. *)
Lemma save_button_tail w (existing : option loc) s cl lv st dx co it wi ch created :
  storable s →
  match existing with
  | Some e => ∃ ce, heap w !! e = Some ce ∧ created = created_date ce
  | None => created = stamp w (ticks w)
  end →
  (char ← Character_init (PStr s) cl lv st dx co it wi ch;
   match existing with
   | Some e => ex ← deref e; update char (set_created_date (created_date ex))
   | None => mret ()
   end;;
   save_character char;;
   mret true) w =
    (Ok true,
     let c := mkCharacter (PStr s) cl lv st dx co it wi ch created
                (stamp w (2 + ticks w)) in
     mkWorld (clock w) (3 + ticks w) (heap w ++ [c])
       (<[filename_of s := Json (PDict (dict_of c))]> (disk w))
       (dict_insert (KStr s) (length (heap w)) (characters w))).
Proof.
  intros Hst Hex. mstep_with ltac:(apply Character_init_spec).
  destruct existing as [e|].
  - destruct Hex as (ce & Hce & ->).
    mstep_with ltac:(erewrite bind_ok; cycle 1;
      [ by apply deref_ok, heap_snoc_old | apply update_ok, heap_snoc_eq ]).
    rewrite heap_insert_snoc.
    mstep_with ltac:(eapply save_character_spec;
                     [apply heap_snoc_eq | reflexivity | exact Hst]).
    rewrite heap_insert_snoc. reflexivity.
  - subst created. mstep.
    mstep_with ltac:(eapply save_character_spec;
                     [apply heap_snoc_eq | reflexivity | exact Hst]).
    rewrite heap_insert_snoc. reflexivity.
Qed.

(** ** Names and files *)

Lemma replace_space_length s : String.length (replace_space s) = String.length s.
Proof.
  unfold replace_space. induction s as [|c s IH]; [done|]. cbn. by rewrite IH.
Qed.

Lemma replace_space_no_space s : contains_char " " (replace_space s) = false.
Proof.
  unfold replace_space. induction s as [|c s IH]; [done|].
  cbn [map_string contains_char]. rewrite IH, orb_false_r.
  destruct (Ascii.eqb_spec c " ") as [-> | Hne]; [done|].
  apply Ascii.eqb_neq. congruence.
Qed.

Lemma replace_space_inj s1 s2 :
  contains_char "_" s1 = false → contains_char "_" s2 = false →
  replace_space s1 = replace_space s2 → s1 = s2.
Proof.
  unfold replace_space. revert s2.
  induction s1 as [|a s1 IH]; intros [|b s2]; try done.
  cbn [map_string contains_char].
  intros [Ha H1]%orb_false_elim [Hb H2]%orb_false_elim [= Hab Hrest].
  rewrite (IH s2 H1 H2 Hrest). f_equal.
  apply Ascii.eqb_neq in Ha, Hb.
  destruct (Ascii.eqb_spec a " ") as [-> | Hna],
           (Ascii.eqb_spec b " ") as [-> | Hnb]; congruence.
Qed.

Lemma str_app_inv_tail (s1 s2 t : string) :
  String.length s1 = String.length s2 → s1 +:+ t = s2 +:+ t → s1 = s2.
Proof.
  revert s2. induction s1 as [|a s1 IH]; intros [|b s2]; try done.
  rewrite !str_app_cons. cbn [String.length].
  intros [= Hlen] [= -> Heq]. f_equal. auto.
Qed.

Lemma filename_of_eq s1 s2 :
  filename_of s1 = filename_of s2 ↔ replace_space s1 = replace_space s2.
Proof.
  unfold filename_of. split; [|by intros ->].
  intros Heq. apply (str_app_inv_tail _ _ ".json"); [|done].
  apply (f_equal String.length) in Heq. rewrite !str_length_app in Heq. lia.
Qed.

(** ** Documents and records *)

Lemma record_of_insert_unknown d k v t1 t2 :
  k ∉ record_keys → record_of (<[k := v]> d) t1 t2 = record_of d t1 t2.
Proof.
  intros Hk. unfold record_of.
  rewrite !lookup_insert_ne; [done|..];
    intros ->; apply Hk; unfold record_keys;
    repeat first [apply list_elem_of_here | apply list_elem_of_further].
Qed.

Lemma dict_of_lookup_unknown c k : k ∉ record_keys → dict_of c !! k = None.
Proof.
  intros Hk. unfold dict_of.
  rewrite !lookup_insert_ne; [apply lookup_empty|..];
    intros <-; apply Hk; unfold record_keys;
    repeat first [apply list_elem_of_here | apply list_elem_of_further].
Qed.

Lemma dict_of_record_of d t1 t2 :
  dom d = list_to_set record_keys → dict_of (record_of d t1 t2) = d.
Proof.
  intros Hdom. apply map_eq. intros k.
  destruct (decide (k ∈ record_keys)) as [Hin | Hout].
  - assert (Hk : is_Some (d !! k)).
    { apply elem_of_dom. rewrite Hdom. by apply elem_of_list_to_set. }
    destruct Hk as [v Hv]. rewrite Hv.
    unfold record_keys in Hin.
    repeat (apply elem_of_cons in Hin as [-> | Hin];
            [unfold dict_of, record_of; cbn [name char_class level strength
               dexterity constitution intelligence wisdom charisma created_date
               modified_date];
             rewrite Hv; by simplify_map_eq|]).
    by apply elem_of_nil in Hin.
  - rewrite dict_of_lookup_unknown by done. symmetry.
    apply not_elem_of_dom. rewrite Hdom. by rewrite elem_of_list_to_set.
Qed.

(** ** Three saves and a listing *)

Lemma saved_then_listed_spec w0 l1 l2 l3 c1 c2 c3 s1 s2 s3 :
  characters w0 = [] →
  heap w0 !! l1 = Some c1 → name c1 = PStr s1 →
  heap w0 !! l2 = Some c2 → name c2 = PStr s2 →
  heap w0 !! l3 = Some c3 → name c3 = PStr s3 →
  storable s1 → storable s2 → storable s3 →
  s1 ≠ s2 → s1 ≠ s3 → s2 ≠ s3 →
  ∃ w3,
    saved_then_listed l1 l2 l3 w0
    = (Ok (map snd (sorted_by_key
                      [(str_lower s1, l1); (str_lower s2, l2);
                       (str_lower s3, l3)])), w3)
    ∧ (λ l, name <$> heap w3 !! l) <$> [l1; l2; l3]
      = [Some (PStr s1); Some (PStr s2); Some (PStr s3)].
Proof.
  intros Hempty H1 Hn1 H2 Hn2 H3 Hn3 Hs1 Hs2 Hs3 H12 H13 H23.
  assert (l1 ≠ l2) by (intros ->; congruence).
  assert (l1 ≠ l3) by (intros ->; congruence).
  assert (l2 ≠ l3) by (intros ->; congruence).
  pose proof (save_character_spec w0 l1 c1 s1 H1 Hn1 Hs1) as Hr1.
  set (c1' := set_modified_date _ c1) in Hr1.
  set (w1 := mkWorld _ _ _ _ _) in Hr1.
  assert (H2' : heap w1 !! l2 = Some c2)
    by (unfold w1; cbn [heap]; by rewrite list_lookup_insert_ne).
  pose proof (save_character_spec w1 l2 c2 s2 H2' Hn2 Hs2) as Hr2.
  set (c2' := set_modified_date _ c2) in Hr2.
  set (w2 := mkWorld _ _ _ _ _) in Hr2.
  assert (H3' : heap w2 !! l3 = Some c3).
  { unfold w2, w1; cbn [heap]. by rewrite !list_lookup_insert_ne. }
  pose proof (save_character_spec w2 l3 c3 s3 H3' Hn3 Hs3) as Hr3.
  set (c3' := set_modified_date _ c3) in Hr3.
  set (w3 := mkWorld _ _ _ _ _) in Hr3.
  assert (Hh1 : heap w3 !! l1 = Some c1').
  { unfold w3, w2, w1; cbn [heap].
    rewrite !list_lookup_insert_ne by done. by eapply heap_insert_eq. }
  assert (Hh2 : heap w3 !! l2 = Some c2').
  { unfold w3, w2; cbn [heap].
    rewrite list_lookup_insert_ne by done. by eapply heap_insert_eq. }
  assert (Hh3 : heap w3 !! l3 = Some c3').
  { unfold w3; cbn [heap]. by eapply heap_insert_eq. }
  assert (Hchars : characters w3 = [(KStr s1, l1); (KStr s2, l2); (KStr s3, l3)]).
  { unfold w3, w2, w1; cbn [characters]. rewrite Hempty. cbn [dict_insert].
    rewrite decide_False by congruence. cbn [dict_insert].
    rewrite decide_False by congruence. by rewrite decide_False by congruence. }
  exists w3. split.
  - unfold saved_then_listed.
    mstep_with ltac:(exact Hr1). mstep_with ltac:(exact Hr2).
    mstep_with ltac:(exact Hr3).
    rewrite list_characters_spec.
    + rewrite Hchars. cbn [dict_values map snd].
      unfold name_key. rewrite Hh1, Hh2, Hh3.
      unfold c1', c2', c3'. cbn [name set_modified_date].
      by rewrite Hn1, Hn2, Hn3.
    + intros l Hl. rewrite Hchars in Hl. cbn in Hl.
      apply elem_of_cons in Hl as [-> | Hl]; [by exists c1', s1|].
      apply elem_of_cons in Hl as [-> | Hl]; [by exists c2', s2|].
      apply elem_of_cons in Hl as [-> | Hl]; [by exists c3', s3|].
      by apply elem_of_nil in Hl.
  - cbn [fmap list_fmap]. rewrite Hh1, Hh2, Hh3. cbn.
    by rewrite Hn1, Hn2, Hn3.
Qed.

(** ** Where a load stops, and what it has read *)

Lemma load_file_error_exact w p e :
  load_error (disk w) p = Some e → load_file p w = (Raise e, stopped_at w p).
Proof.
  unfold load_error, load_file, stopped_at, file_doc. intros He.
  destruct (disk w !! p) as [[doc| |]|] eqn:Hp.
  - destruct doc as [| | | | |d];
      try (injection He as <-;
           erewrite bind_ok; [|unfold read_json; by rewrite Hp]; reflexivity).
    destruct (py_hash (default (PStr "") (d !! "name"))) eqn:Hk; [done|].
    injection He as <-.
    mstep_with ltac:(unfold read_json; by rewrite Hp).
    mstep_with ltac:(apply from_dict_spec).
    mstep_with ltac:(apply deref_ok, heap_snoc_eq).
    cbn [name record_of]. unfold characters_setitem, hash_of. rewrite Hk.
    reflexivity.
  - injection He as <-.
    erewrite bind_raise; [done|]. unfold read_json. by rewrite Hp.
  - injection He as <-.
    erewrite bind_raise; [done|]. unfold read_json. by rewrite Hp.
  - injection He as <-.
    erewrite bind_raise; [done|]. unfold read_json. by rewrite Hp.
Qed.

Lemma stopped_at_TypeError w p e :
  load_error (disk w) p = Some e → e ≠ TypeError → stopped_at w p = w.
Proof.
  unfold load_error, stopped_at, file_doc. intros He Hne.
  destruct (disk w !! p) as [[[| | | | |d]| |]|]; try done.
  destruct (py_hash _); [done|]. by injection He as <-.
Qed.

(** The body of the loop depends on the directory through the file it is
    given only. *)
Lemma load_file_set_disk w d' p :
  d' !! p = disk w !! p →
  load_file p (set_disk d' w) =
    (fst (load_file p w), set_disk d' (snd (load_file p w))).
Proof.
  intros Hp.
  assert (He : load_error (disk (set_disk d' w)) p = load_error (disk w) p).
  { unfold load_error. cbn [disk set_disk]. by rewrite Hp. }
  destruct (load_error (disk w) p) as [e|] eqn:E.
  - rewrite (load_file_error_exact _ p e He), (load_file_error_exact _ p e E).
    cbn [fst snd]. f_equal. unfold stopped_at, file_doc.
    cbn [disk set_disk]. rewrite Hp. by destruct (disk w !! p) as [[[]| |]|].
  - apply load_error_None in He as [k Hk]. apply load_error_None in E as [k' Hk'].
    destruct (file_key_doc _ _ _ Hk) as (doc & _ & Hd & Hh).
    destruct (file_key_doc _ _ _ Hk') as (doc' & _ & Hd' & Hh').
    cbn [disk set_disk] in Hd. rewrite Hp, Hd' in Hd. injection Hd as <-.
    assert (k' = k) as -> by congruence.
    rewrite (load_file_spec w p doc' k Hd' Hh').
    rewrite (load_file_spec (set_disk d' w) p doc' k); [done | | done].
    cbn [disk set_disk]. by rewrite Hp.
Qed.

Lemma for_each_load_file_set_disk order : ∀ w d',
  (∀ p, p ∈ order → d' !! p = disk w !! p) →
  for_each order load_file (set_disk d' w) =
    (fst (for_each order load_file w),
     set_disk d' (snd (for_each order load_file w))).
Proof.
  induction order as [|p order IH]; intros w d' Hagree; cbn [for_each].
  - reflexivity.
  - unfold mbind, M_bind.
    rewrite load_file_set_disk by (apply Hagree, list_elem_of_here).
    destruct (load_file_reads_only w p) as [Hd _].
    destruct (load_file p w) as [[[]|e] w1]; cbn [fst snd] in *; [|done].
    apply IH. intros q Hq. rewrite Hd. by apply Hagree, list_elem_of_further.
Qed.

(** ** Names that can be stored *)

Lemma storable_no_slash s : storable s → contains_char "/" s = false.
Proof.
  unfold storable, open_error, filename_of. intros H.
  destruct (contains_char "000" _); [done|].
  rewrite contains_char_app, contains_slash_replace_space in H.
  by destruct (contains_char "/" s).
Qed.

Lemma storable_glob_match s : storable s → glob_match (filename_of s) = true.
Proof. intros H. by rewrite glob_match_filename_of, storable_no_slash. Qed.

Lemma save_character_ok_storable w l c s w' :
  heap w !! l = Some c → name c = PStr s →
  save_character l w = (Ok (), w') → storable s.
Proof.
  intros Hl Hn Hrun. unfold storable.
  destruct (open_error (filename_of s)) as [e|] eqn:He; [|done].
  by rewrite (save_character_unstorable w l c s e Hl Hn He) in Hrun.
Qed.

Lemma utf8_length_app (s t : string) :
  utf8_length (s +:+ t) = (utf8_length s + utf8_length t)%nat.
Proof.
  induction s as [|a s IH]; [done|].
  rewrite str_app_cons. cbn [utf8_length]. rewrite IH. lia.
Qed.

Lemma utf8_length_replace_space s :
  utf8_length (replace_space s) = utf8_length s.
Proof.
  unfold replace_space. induction s as [|a s IH]; [done|].
  cbn [map_string utf8_length]. rewrite IH. f_equal.
  by destruct (Ascii.eqb_spec a " ") as [-> | Hne].
Qed.

Lemma contains_nul_replace_space s :
  contains_char "000" (replace_space s) = contains_char "000" s.
Proof.
  unfold replace_space. induction s as [|a s IH]; [done|].
  cbn [map_string contains_char]. rewrite IH. f_equal.
  by destruct (Ascii.eqb_spec a " ") as [-> | Hne].
Qed.

(** ** What [strip] takes off *)

Lemma str_app_nil_l (t : string) : "" +:+ t = t.
Proof. reflexivity. Qed.

Lemma str_app_not_nil (t : string) c : "" ≠ t +:+ String c "".
Proof. destruct t; [rewrite str_app_nil_l | rewrite str_app_cons]; discriminate. Qed.

Lemma lstrip_split s : ∃ a, s = a +:+ lstrip s ∧ all_space a = true.
Proof.
  induction s as [|c s (a & Ha & Hs)]; [by exists ""|]. cbn [lstrip].
  destruct (py_isspace c) eqn:Hc; [|by exists ""].
  exists (String c a). rewrite str_app_cons, <- Ha. cbn [all_space].
  by rewrite Hc, Hs.
Qed.

Lemma rstrip_split s : ∃ b, s = rstrip s +:+ b ∧ all_space b = true.
Proof.
  induction s as [|c s (b & Hb & Hs)]; [by exists ""|]. cbn [rstrip].
  destruct (rstrip s) as [|c' r] eqn:E.
  - rewrite str_app_nil_l in Hb. subst b.
    destruct (py_isspace c) eqn:Hc.
    + exists (String c s). rewrite str_app_nil_l. cbn [all_space].
      by rewrite Hc, Hs.
    + exists s. by rewrite str_app_cons, str_app_nil_l.
  - exists b. by rewrite str_app_cons, <- Hb.
Qed.

Lemma lstrip_head s c r : lstrip s = String c r → py_isspace c = false.
Proof.
  induction s as [|a s IH]; [done|]. cbn [lstrip].
  destruct (py_isspace a) eqn:Ha; [done|]. by intros [= <- _].
Qed.

Lemma rstrip_head c r : py_isspace c = false → ∃ r', rstrip (String c r) = String c r'.
Proof. intros Hc. cbn [rstrip]. rewrite Hc. destruct (rstrip r); eauto. Qed.

Lemma rstrip_last u : ∀ t c, rstrip u = t +:+ String c "" → py_isspace c = false.
Proof.
  induction u as [|a u IH]; intros t c H; cbn [rstrip] in H.
  - by destruct (str_app_not_nil t c).
  - destruct (rstrip u) as [|b r] eqn:E.
    + destruct (py_isspace a) eqn:Ha; [by destruct (str_app_not_nil t c)|].
      destruct t as [|a' t].
      * rewrite str_app_nil_l in H. by injection H as <-.
      * rewrite str_app_cons in H. injection H as _ H.
        by destruct (str_app_not_nil t c).
    + destruct t as [|a' t].
      * rewrite str_app_nil_l in H. discriminate.
      * rewrite str_app_cons in H. injection H as _ H. by eapply IH.
Qed.

(** ** Lowering *)



(** ** The claims *)

(** C1 — Round trip.  For every Character object [c], deserializing its
    serialization, [from_dict(to_dict(c))], succeeds and builds a new
    object that equals [c] in every field: name, class, level, the six
    ability scores, [created_date] and [modified_date].  Both timestamps
    are those of [c], not readings of the clock taken by [from_dict];
    the original object is left as it was. *)
Theorem from_dict_to_dict_roundtrip (w : World) (self : loc) (c : Character) :
  heap w !! self = Some c →
  ∃ w', (to_dict self ≫= from_dict) w = (Ok (length (heap w)), w')
        ∧ heap w' !! length (heap w) = Some c
        ∧ heap w' !! self = Some c.
Proof.
  intros Hc. eexists. split; [|split].
  - mstep_with ltac:(by apply to_dict_spec). apply from_dict_spec.
  - cbn [heap]. rewrite record_of_dict_of. apply heap_snoc_eq.
  - cbn [heap]. by apply heap_snoc_old.
Qed.

Lemma from_dict_to_dict_roundtrip_witness :
  ∃ w', (to_dict 0 ≫= from_dict)
          (mkWorld example_clock 7 [example_character "Aria" 5] ∅ [])
        = (Ok 1%nat, w')
        ∧ heap w' !! 1%nat = Some (example_character "Aria" 5)
        ∧ heap w' !! 0%nat = Some (example_character "Aria" 5).
Proof.
  apply (from_dict_to_dict_roundtrip
           (mkWorld example_clock 7 [example_character "Aria" 5] ∅ []) 0
           (example_character "Aria" 5)).
  reflexivity.
Defined.

(** C2 — Default filling.  [from_dict] never fails on a dictionary.  On
    the empty dictionary it builds the record with the empty string for
    name and class, 1 for level, 10 for each of the six ability scores and
    a reading of the clock for each timestamp; with a clock that does not
    run backwards, both timestamps are no earlier than any reading [i] of
    the clock up to [ticks w], the reading that stands for the time of the
    call.  On any dictionary [d], every field takes the value of its key
    when [d] has the key and that same default otherwise. *)
Theorem from_dict_defaults (w : World) :
  clock_valid_until w (4 + ticks w) →
  clock_monotone_until w (4 + ticks w) →
  (∃ w' t_created t_modified,
     from_dict (PDict ∅) w = (Ok (length (heap w)), w')
     ∧ heap w' !! length (heap w) =
         Some (mkCharacter (PStr "") (PStr "") (PInt 1) (PInt 10) (PInt 10)
                 (PInt 10) (PInt 10) (PInt 10) (PInt 10)
                 (PStr t_created) (PStr t_modified))
     ∧ ∀ i, (i ≤ ticks w)%nat →
         str_le (isoformat (clock w i)) t_created
         ∧ str_le (isoformat (clock w i)) t_modified)
  ∧ (∀ d : gmap string pyval,
       ∃ w',
         from_dict (PDict d) w = (Ok (length (heap w)), w')
         ∧ heap w' !! length (heap w) =
             Some (record_of d (PStr (isoformat (clock w (2 + ticks w))))
                               (PStr (isoformat (clock w (3 + ticks w)))))).
Proof.
  intros Hvalid Hmono. split.
  - eexists _, (isoformat (clock w (2 + ticks w))),
      (isoformat (clock w (3 + ticks w))).
    split_and!.
    + apply from_dict_spec.
    + apply heap_snoc_eq.
    + intros i Hi. split; apply isoformat_le;
        try (apply Hvalid; lia); apply Hmono; lia.
  - intros d. eexists. split; [apply from_dict_spec | apply heap_snoc_eq].
Qed.

Lemma from_dict_defaults_witness :
  (∃ w' t_created t_modified,
     from_dict (PDict ∅) empty_world = (Ok 0%nat, w')
     ∧ heap w' !! 0%nat =
         Some (mkCharacter (PStr "") (PStr "") (PInt 1) (PInt 10) (PInt 10)
                 (PInt 10) (PInt 10) (PInt 10) (PInt 10)
                 (PStr t_created) (PStr t_modified))
     ∧ ∀ i, (i ≤ 0)%nat →
         str_le (isoformat (example_clock i)) t_created
         ∧ str_le (isoformat (example_clock i)) t_modified)
  ∧ (∀ d : gmap string pyval,
       ∃ w',
         from_dict (PDict d) empty_world = (Ok 0%nat, w')
         ∧ heap w' !! 0%nat =
             Some (record_of d (PStr (isoformat (example_clock 2)))
                               (PStr (isoformat (example_clock 3))))).
Proof.
  apply (from_dict_defaults empty_world).
  - intros i Hi. apply example_clock_valid. cbn in Hi. lia.
  - intros i j Hij Hj. destruct (decide (i = j)) as [-> | Hne].
    + by left.
    + right. apply example_clock_advances. lia.
Defined.

(** C3 — Timestamps of a save.  (1) Whenever a character whose name is a
    [str] is passed to [save_character], the object carries afterwards as
    [modified_date] the reading of the clock taken by the save, whatever
    the caller had put there, and the [created_date] the caller supplied;
    when the file of the name can be opened for writing, the save
    succeeds and the file written holds that very record.  (2) In a store
    that holds "Aria", created at the reading [i0] of the clock (T0),
    saving a record built anew under that name with the creation date
    copied from the existing record, then reloading the directory in
    whatever order it is enumerated, finds under "Aria" an object that
    the reload has built, with [created_date] equal to T0 and a
    [modified_date] that compares greater than T0; the clock is taken to
    move on between readings. *)
Theorem save_character_timestamps :
  (∀ (w : World) (character : loc) (c : Character) (s : string),
     heap w !! character = Some c → name c = PStr s →
     ∃ r w' c',
       save_character character w = (r, w')
       ∧ heap w' !! character = Some c'
       ∧ modified_date c' = PStr (isoformat (clock w (ticks w)))
       ∧ created_date c' = created_date c
       ∧ (storable s →
            r = Ok ()
            ∧ disk w' !! filename_of s = Some (Json (PDict (dict_of c')))))
  ∧ (∀ (w : World) (e : loc) (ce : Character) (i0 : nat)
       (cl lv st dx co it wi ch : pyval),
     dict_lookup (KStr "Aria") (characters w) = Some e →
     heap w !! e = Some ce →
     created_date ce = PStr (isoformat (clock w i0)) →
     (i0 < ticks w)%nat →
     consistent_dir (disk w) →
     clock_valid_until w (3 + ticks w) →
     clock_advances_until w (3 + ticks w) →
     ∃ w1,
       edit_character (PStr "Aria") (PStr "Aria") cl lv st dx co it wi ch w
         = (Ok (), w1)
       ∧ ∀ order, glob_enumerates (disk w1) order →
           ∃ w2 r c' t,
             (load_all_characters order ≫= λ _, get_character (PStr "Aria")) w1
               = (Ok (Some r), w2)
             ∧ heap w1 !! r = None
             ∧ heap w2 !! r = Some c'
             ∧ created_date c' = PStr (isoformat (clock w i0))
             ∧ modified_date c' = PStr t
             ∧ str_lt (isoformat (clock w i0)) t).
Proof.
  split.
  - intros w l c s Hl Hn.
    pose proof (heap_insert_eq _ _ _
                  (set_modified_date (stamp w (ticks w)) c) Hl) as Hl'.
    destruct (open_error (filename_of s)) as [e|] eqn:Hs.
    + eexists _, _, _. split; [by eapply save_character_unstorable|].
      cbn [heap]. split_and!; [exact Hl' | reflexivity | reflexivity |].
      intros Hst. unfold storable in Hst. congruence.
    + eexists _, _, _. split; [by apply save_character_spec|].
      cbn [heap disk]. split_and!; [exact Hl' | reflexivity | reflexivity |].
      intros _. split; [done|]. apply lookup_insert_eq.
  - intros w e ce i0 cl lv st dx co it wi ch He Hce Hcreated Hi0 Hdir Hvalid Hadv.
    eexists. split; [by apply (edit_character_spec w "Aria" e ce)|].
    cbv zeta. intros order Horder.
    set (c := mkCharacter _ _ _ _ _ _ _ _ _ _ _) in *.
    set (w1 := mkWorld _ _ _ _ _) in *.
    destruct (reload_consistent w1 order) as (w2 & Hrun & Hw2 & Hfound & _).
    { by apply consistent_dir_save. }
    { done. }
    destruct (Hfound "Aria" (dict_of c)) as (r & t1 & t2 & Hr & Hheap & Hnew).
    { apply lookup_insert_eq. }
    { reflexivity. }
    { reflexivity. }
    exists w2, r, c, (isoformat (clock w (2 + ticks w))). split_and!.
    + mstep_with ltac:(exact Hrun). by rewrite get_character_spec, Hr.
    + exact Hnew.
    + by rewrite Hheap, record_of_dict_of.
    + exact Hcreated.
    + reflexivity.
    + apply isoformat_lt; [apply Hvalid; lia | apply Hvalid; lia |].
      apply Hadv; lia.
Qed.

Lemma save_character_timestamps_witness :
  (∃ r w' c',
     save_character 0 aria_world = (r, w')
     ∧ heap w' !! 0%nat = Some c'
     ∧ modified_date c' = PStr (isoformat (example_clock 3))
     ∧ created_date c' = created_date aria
     ∧ (storable "Aria" →
          r = Ok ()
          ∧ disk w' !! filename_of "Aria" = Some (Json (PDict (dict_of c')))))
  ∧ (∃ w1,
       edit_character (PStr "Aria") (PStr "Aria") (PStr "Bard") (PInt 4)
         (PInt 10) (PInt 10) (PInt 10) (PInt 10) (PInt 10) (PInt 10) aria_world
         = (Ok (), w1)
       ∧ ∀ order, glob_enumerates (disk w1) order →
           ∃ w2 r c' t,
             (load_all_characters order ≫= λ _, get_character (PStr "Aria")) w1
               = (Ok (Some r), w2)
             ∧ heap w1 !! r = None
             ∧ heap w2 !! r = Some c'
             ∧ created_date c' = PStr (isoformat (example_clock 0))
             ∧ modified_date c' = PStr t
             ∧ str_lt (isoformat (example_clock 0)) t).
Proof.
  split.
  - apply (proj1 save_character_timestamps aria_world 0%nat aria "Aria");
      reflexivity.
  - apply (proj2 save_character_timestamps aria_world 0%nat aria 0%nat).
    + reflexivity.
    + reflexivity.
    + reflexivity.
    + cbn. lia.
    + apply aria_world_consistent.
    + intros i Hi. apply example_clock_valid. cbn in Hi. lia.
    + intros i j Hij Hj. by apply example_clock_advances.
Defined.




(** C5 — Listing.  In every state of the store whose characters are named
    by text, [list_characters] succeeds and leaves the whole state as it
    was, directory included; it returns the objects of the mapping, each
    as often as the mapping refers to it, in ascending order of their
    lowercased names.  In particular, after characters named "zed", "Anna"
    and "bob" are saved in that order into an empty mapping, the list is
    "Anna", "bob", "zed".  The case of the letters does not count: saved
    as "Zed", "anna", "Bob" they are listed as "anna", "Bob", "Zed", where
    the order of the code points would put the capitals first; and of
    "Éz", "éa" and "Zz" the list is "Zz", "éa", "Éz". *)
Theorem list_characters_sorted (w : World) :
  names_are_text w →
  (∃ ls,
     list_characters w = (Ok ls, w)
     ∧ ls ≡ₚ dict_values (characters w)
     ∧ StronglySorted (λ a b, str_le (name_key w a) (name_key w b)) ls)
  ∧ (∀ (w0 : World) (l1 l2 l3 : loc) (c1 c2 c3 : Character),
       characters w0 = [] →
       heap w0 !! l1 = Some c1 → name c1 = PStr "zed" →
       heap w0 !! l2 = Some c2 → name c2 = PStr "Anna" →
       heap w0 !! l3 = Some c3 → name c3 = PStr "bob" →
       ∃ w3,
         (save_character l1 ≫= λ _, save_character l2 ≫= λ _,
          save_character l3 ≫= λ _, list_characters) w0
         = (Ok [l2; l3; l1], w3)
         ∧ (λ l, name <$> heap w3 !! l) <$> [l2; l3; l1]
           = [Some (PStr "Anna"); Some (PStr "bob"); Some (PStr "zed")])
  ∧ (∀ (w0 : World) (l1 l2 l3 : loc) (c1 c2 c3 : Character),
       characters w0 = [] →
       heap w0 !! l1 = Some c1 → name c1 = PStr "Zed" →
       heap w0 !! l2 = Some c2 → name c2 = PStr "anna" →
       heap w0 !! l3 = Some c3 → name c3 = PStr "Bob" →
       ∃ w3,
         saved_then_listed l1 l2 l3 w0 = (Ok [l2; l3; l1], w3)
         ∧ (λ l, name <$> heap w3 !! l) <$> [l2; l3; l1]
           = [Some (PStr "anna"); Some (PStr "Bob"); Some (PStr "Zed")]
         ∧ String.ltb "Bob" "Zed" = true ∧ String.ltb "Zed" "anna" = true)
  ∧ (∀ (w0 : World) (l1 l2 l3 : loc) (c1 c2 c3 : Character),
       characters w0 = [] →
       heap w0 !! l1 = Some c1 → name c1 = PStr E_acute_z →
       heap w0 !! l2 = Some c2 → name c2 = PStr e_acute_a →
       heap w0 !! l3 = Some c3 → name c3 = PStr "Zz" →
       ∃ w3,
         saved_then_listed l1 l2 l3 w0 = (Ok [l3; l2; l1], w3)
         ∧ (λ l, name <$> heap w3 !! l) <$> [l3; l2; l1]
           = [Some (PStr "Zz"); Some (PStr e_acute_a); Some (PStr E_acute_z)]).
Proof.
  intros Htext. split_and!.
  - eexists. split; [by apply list_characters_spec|].
    set (keyed := map (λ l, (name_key w l, l)) (dict_values (characters w))).
    assert (Hkeys : ∀ e, e ∈ sorted_by_key keyed → e.1 = name_key w e.2).
    { intros e He. rewrite sorted_by_key_perm in He.
      apply list_elem_of_fmap in He as (l & -> & _). done. }
    split.
    + rewrite sorted_by_key_perm. unfold keyed.
      rewrite map_map. cbn. by rewrite map_id.
    + pose proof (sorted_by_key_sorted keyed) as Hsorted.
      induction Hsorted as [|e es Hes IH Hall]; [constructor|].
      cbn [map]. constructor.
      * apply IH. intros e' He'. apply Hkeys. by apply list_elem_of_further.
      * apply Forall_forall. intros l (e' & -> & He')%list_elem_of_fmap.
        rewrite Forall_forall in Hall. specialize (Hall e' He').
        unfold key_le in Hall.
        rewrite <- (Hkeys e) by apply list_elem_of_here.
        rewrite <- (Hkeys e') by (by apply list_elem_of_further).
        exact Hall.
  - intros w0 l1 l2 l3 c1 c2 c3 Hempty H1 Hn1 H2 Hn2 H3 Hn3.
    destruct (saved_then_listed_spec w0 l1 l2 l3 c1 c2 c3 "zed" "Anna" "bob")
      as (w3 & Hrun & Hnames); try done.
    exists w3. split; [exact Hrun|].
    injection Hnames as E1 E2 E3. cbn [fmap list_fmap]. by rewrite E1, E2, E3.
  - intros w0 l1 l2 l3 c1 c2 c3 Hempty H1 Hn1 H2 Hn2 H3 Hn3.
    destruct (saved_then_listed_spec w0 l1 l2 l3 c1 c2 c3 "Zed" "anna" "Bob")
      as (w3 & Hrun & Hnames); try done.
    exists w3. split; [exact Hrun|].
    injection Hnames as E1 E2 E3. cbn [fmap list_fmap]. by rewrite E1, E2, E3.
  - intros w0 l1 l2 l3 c1 c2 c3 Hempty H1 Hn1 H2 Hn2 H3 Hn3.
    destruct (saved_then_listed_spec w0 l1 l2 l3 c1 c2 c3
                E_acute_z e_acute_a "Zz")
      as (w3 & Hrun & Hnames); try done.
    exists w3. split; [exact Hrun|].
    injection Hnames as E1 E2 E3. cbn [fmap list_fmap]. by rewrite E1, E2, E3.
Qed.

Lemma list_characters_sorted_witness :
  (∃ ls,
     list_characters case_world = (Ok ls, case_world)
     ∧ ls ≡ₚ dict_values (characters case_world)
     ∧ StronglySorted
         (λ a b, str_le (name_key case_world a) (name_key case_world b)) ls)
  ∧ (∀ (w0 : World) (l1 l2 l3 : loc) (c1 c2 c3 : Character),
       characters w0 = [] →
       heap w0 !! l1 = Some c1 → name c1 = PStr "zed" →
       heap w0 !! l2 = Some c2 → name c2 = PStr "Anna" →
       heap w0 !! l3 = Some c3 → name c3 = PStr "bob" →
       ∃ w3,
         (save_character l1 ≫= λ _, save_character l2 ≫= λ _,
          save_character l3 ≫= λ _, list_characters) w0
         = (Ok [l2; l3; l1], w3)
         ∧ (λ l, name <$> heap w3 !! l) <$> [l2; l3; l1]
           = [Some (PStr "Anna"); Some (PStr "bob"); Some (PStr "zed")])
  ∧ (∀ (w0 : World) (l1 l2 l3 : loc) (c1 c2 c3 : Character),
       characters w0 = [] →
       heap w0 !! l1 = Some c1 → name c1 = PStr "Zed" →
       heap w0 !! l2 = Some c2 → name c2 = PStr "anna" →
       heap w0 !! l3 = Some c3 → name c3 = PStr "Bob" →
       ∃ w3,
         saved_then_listed l1 l2 l3 w0 = (Ok [l2; l3; l1], w3)
         ∧ (λ l, name <$> heap w3 !! l) <$> [l2; l3; l1]
           = [Some (PStr "anna"); Some (PStr "Bob"); Some (PStr "Zed")]
         ∧ String.ltb "Bob" "Zed" = true ∧ String.ltb "Zed" "anna" = true)
  ∧ (∀ (w0 : World) (l1 l2 l3 : loc) (c1 c2 c3 : Character),
       characters w0 = [] →
       heap w0 !! l1 = Some c1 → name c1 = PStr E_acute_z →
       heap w0 !! l2 = Some c2 → name c2 = PStr e_acute_a →
       heap w0 !! l3 = Some c3 → name c3 = PStr "Zz" →
       ∃ w3,
         saved_then_listed l1 l2 l3 w0 = (Ok [l3; l2; l1], w3)
         ∧ (λ l, name <$> heap w3 !! l) <$> [l3; l2; l1]
           = [Some (PStr "Zz"); Some (PStr e_acute_a); Some (PStr E_acute_z)]).
Proof.
  apply (list_characters_sorted case_world).
  intros l Hl. cbn in Hl.
  apply elem_of_cons in Hl as [-> | Hl]; [by eexists _, _|].
  apply elem_of_cons in Hl as [-> | Hl]; [by eexists _, _|].
  apply elem_of_cons in Hl as [-> | Hl]; [by eexists _, _|].
  apply elem_of_cons in Hl as [-> | Hl]; [by eexists _, _|].
  by apply elem_of_nil in Hl.
Defined.

(** C6 — Loading.  When every file that [glob] enumerates holds a JSON
    object with a hashable name, [load_all_characters] succeeds and does
    the same from any previous mapping as from the empty one; it leaves
    the directory as it is; every record file directly under the
    directory is enumerated and deserialized into a new object; the
    mapping it builds has one entry per key, and has the entry [k ↦ r]
    exactly when [r] is the object of a file whose document has the name
    [k] and no file later in the enumeration has that name.  The key is
    read from the document, whatever the file is called. *)
Theorem load_all_characters_rebuilds (w : World) (order : list string) :
  glob_enumerates (disk w) order →
  (∀ p, p ∈ order → is_Some (file_key (disk w) p)) →
  ∃ w',
    load_all_characters order w = (Ok (), w')
    ∧ load_all_characters order (cleared w) = (Ok (), w')
    ∧ disk w' = disk w
    ∧ dict_wf (characters w')
    ∧ (∀ p doc,
         disk w !! p = Some (Json (PDict doc)) → glob_match p = true →
         ∃ i t1 t2,
           order !! i = Some p
           ∧ heap w' !! (length (heap w) + i)%nat = Some (record_of doc t1 t2))
    ∧ (∀ k r,
         dict_lookup k (characters w') = Some r ↔
         ∃ i p doc,
           order !! i = Some p
           ∧ disk w !! p = Some (Json (PDict doc))
           ∧ py_hash (default (PStr "") (doc !! "name")) = Some k
           ∧ r = (length (heap w) + i)%nat
           ∧ ∀ j q, (i < j)%nat → order !! j = Some q →
               file_key (disk w) q ≠ Some k).
Proof.
  intros [Hnodup Horder] Hall.
  destruct (load_all_characters_spec w order Hall) as (w' & Hrun & Hw').
  exists w'. split_and!.
  - done.
  - done.
  - apply (loaded_disk _ _ _ Hw').
  - apply (loaded_wf _ _ _ Hw'). apply NoDup_nil_2.
  - intros p doc Hp Hg.
    assert (Hin : p ∈ order) by (apply Horder; split; [eauto | done]).
    apply list_elem_of_lookup in Hin as [i Hi].
    exists i. eexists _, _. split; [done|].
    apply (loaded_new _ _ _ Hw' i p doc Hi).
    unfold file_doc. cbn [disk cleared]. by rewrite Hp.
  - intros k r. rewrite (loaded_lookup _ _ _ Hw'). cbn [disk cleared characters heap].
    destruct (find_last k (map (file_key (disk w)) order)) as [i|] eqn:E.
    + apply find_last_Some in E as [Hi Hlast].
      rewrite list_lookup_fmap in Hi.
      destruct (order !! i) as [p|] eqn:Hp; [|done]. cbn in Hi.
      injection Hi as Hi.
      destruct (file_key_doc _ _ _ Hi) as (doc & _ & Hdoc & Hk).
      split.
      * intros [= <-]. exists i, p, doc. split_and!; try done.
        intros j q Hj Hq Hkq. apply (Hlast j Hj).
        by rewrite list_lookup_fmap, Hq; cbn; rewrite Hkq.
      * intros (i' & p' & doc' & Hi' & Hdoc' & Hk' & -> & Hlast').
        f_equal. f_equal.
        destruct (Nat.lt_trichotomy i i') as [Hlt | [-> | Hlt]]; [|done|].
        -- exfalso. apply (Hlast i' Hlt).
           rewrite list_lookup_fmap, Hi'. cbn. unfold file_key.
           by rewrite Hdoc', Hk'.
        -- exfalso. by apply (Hlast' i p Hlt Hp).
    + split; [done|].
      intros (i' & p' & doc' & Hi' & Hdoc' & Hk' & _).
      apply find_last_None in E. exfalso. apply E.
      apply list_elem_of_fmap. exists p'. split.
      * unfold file_key. by rewrite Hdoc', Hk'.
      * by eapply list_elem_of_lookup_2.
Qed.

Lemma load_all_characters_rebuilds_witness :
  ∃ w',
    load_all_characters ["x.json"; "y.json"] clash_world = (Ok (), w')
    ∧ load_all_characters ["x.json"; "y.json"] (cleared clash_world) = (Ok (), w')
    ∧ disk w' = disk clash_world
    ∧ dict_wf (characters w')
    ∧ (∀ p doc,
         disk clash_world !! p = Some (Json (PDict doc)) → glob_match p = true →
         ∃ i t1 t2,
           ["x.json"; "y.json"] !! i = Some p
           ∧ heap w' !! (length (heap clash_world) + i)%nat
             = Some (record_of doc t1 t2))
    ∧ (∀ k r,
         dict_lookup k (characters w') = Some r ↔
         ∃ i p doc,
           ["x.json"; "y.json"] !! i = Some p
           ∧ disk clash_world !! p = Some (Json (PDict doc))
           ∧ py_hash (default (PStr "") (doc !! "name")) = Some k
           ∧ r = (length (heap clash_world) + i)%nat
           ∧ ∀ j q, (i < j)%nat → ["x.json"; "y.json"] !! j = Some q →
               file_key (disk clash_world) q ≠ Some k).
Proof.
  apply (load_all_characters_rebuilds clash_world ["x.json"; "y.json"]).
  - apply clash_dir_enumeration.
  - intros p Hp. cbn [disk clash_world].
    apply elem_of_cons in Hp as [-> | Hp]; [by eexists|].
    apply list_elem_of_singleton in Hp as ->. by eexists.
Defined.

(** The run of the example: both files name "Aria"; the object of the file
    enumerated last is the one that stays, and the entry left over from
    before is gone. *)
Example load_all_characters_clash :
  characters (snd (load_all_characters ["x.json"; "y.json"] clash_world))
    = [(KStr "Aria", 1%nat)]
  ∧ characters (snd (load_all_characters ["y.json"; "x.json"] clash_world))
    = [(KStr "Aria", 1%nat)]
  ∧ level <$> heap (snd (load_all_characters ["x.json"; "y.json"] clash_world))
                !! 1%nat = Some (PInt 2)
  ∧ level <$> heap (snd (load_all_characters ["y.json"; "x.json"] clash_world))
                !! 1%nat = Some (PInt 1).
Proof. split_and!; reflexivity. Qed.



(** C8 — Saving under a new name keeps the old one.  After a character
    has been saved under the name [A], saving under a different name [B]
    (a second object, or the same object renamed) writes the file and the
    entry for [B] and removes nothing: the mapping still has the entry for
    [A], the directory still has the file derived from [A], and when the
    two names derive different files the file of [A] is untouched.  Both
    names are names under which a character can be saved: their files
    can be opened for writing. *)
Theorem save_character_rename_keeps_old
    (w : World) (first second : loc) (c1 c2 : Character) (A B : string) :
  heap w !! first = Some c1 → heap w !! second = Some c2 →
  name c1 = PStr A → name c2 = PStr B → A ≠ B →
  storable A → storable B →
  (∃ w1 w2,
     save_character first w = (Ok (), w1)
     ∧ save_character second w1 = (Ok (), w2)
     ∧ dict_lookup (KStr A) (characters w2) = Some first
     ∧ dict_lookup (KStr B) (characters w2) = Some second
     ∧ is_Some (disk w2 !! filename_of A)
     ∧ is_Some (disk w2 !! filename_of B)
     ∧ heap w2 !! first = heap w1 !! first
     ∧ (filename_of A ≠ filename_of B →
        disk w2 !! filename_of A = disk w1 !! filename_of A))
  ∧ (∃ w1 w2 w3,
       save_character first w = (Ok (), w1)
       ∧ update first (set_name (PStr B)) w1 = (Ok (), w2)
       ∧ save_character first w2 = (Ok (), w3)
       ∧ dict_lookup (KStr A) (characters w3) = Some first
       ∧ dict_lookup (KStr B) (characters w3) = Some first
       ∧ is_Some (disk w3 !! filename_of A)
       ∧ is_Some (disk w3 !! filename_of B)
       ∧ (filename_of A ≠ filename_of B →
          disk w3 !! filename_of A = disk w1 !! filename_of A)).
Proof.
  intros H1 H2 Hn1 Hn2 HAB HsA HsB.
  assert (Hne : first ≠ second) by (intros ->; congruence).
  assert (Hk : KStr B ≠ KStr A) by congruence.
  split.
  - eexists _, _. split; [by apply save_character_spec|].
    split.
    { eapply save_character_spec; [|exact Hn2|exact HsB].
      cbn [heap]. by rewrite list_lookup_insert_ne. }
    cbn [characters heap disk ticks clock]. split_and!.
    + rewrite dict_lookup_insert_ne by done. apply dict_lookup_insert_eq.
    + apply dict_lookup_insert_eq.
    + destruct (decide (filename_of B = filename_of A)) as [-> | Hf].
      * rewrite lookup_insert_eq. eauto.
      * rewrite lookup_insert_ne, lookup_insert_eq by done. eauto.
    + rewrite lookup_insert_eq. eauto.
    + by rewrite list_lookup_insert_ne.
    + intros Hf. by rewrite lookup_insert_ne.
  - eexists _, _, _. split; [by apply save_character_spec|].
    split.
    { eapply update_ok. cbn [heap]. by eapply heap_insert_eq. }
    split.
    { eapply save_character_spec; cbn [heap].
      - eapply heap_insert_eq. by eapply heap_insert_eq.
      - reflexivity.
      - exact HsB. }
    cbn [characters heap disk ticks clock]. split_and!.
    + rewrite dict_lookup_insert_ne by done. apply dict_lookup_insert_eq.
    + apply dict_lookup_insert_eq.
    + destruct (decide (filename_of B = filename_of A)) as [-> | Hf].
      * rewrite lookup_insert_eq. eauto.
      * rewrite lookup_insert_ne, lookup_insert_eq by done. eauto.
    + rewrite lookup_insert_eq. eauto.
    + intros Hf. by rewrite lookup_insert_ne.
Qed.

Lemma save_character_rename_keeps_old_witness :
  (∃ w1 w2,
     save_character 0 (pair_world "Aria" "Brom") = (Ok (), w1)
     ∧ save_character 1 w1 = (Ok (), w2)
     ∧ dict_lookup (KStr "Aria") (characters w2) = Some 0%nat
     ∧ dict_lookup (KStr "Brom") (characters w2) = Some 1%nat
     ∧ is_Some (disk w2 !! filename_of "Aria")
     ∧ is_Some (disk w2 !! filename_of "Brom")
     ∧ heap w2 !! 0%nat = heap w1 !! 0%nat
     ∧ (filename_of "Aria" ≠ filename_of "Brom" →
        disk w2 !! filename_of "Aria" = disk w1 !! filename_of "Aria"))
  ∧ (∃ w1 w2 w3,
       save_character 0 (pair_world "Aria" "Brom") = (Ok (), w1)
       ∧ update 0 (set_name (PStr "Brom")) w1 = (Ok (), w2)
       ∧ save_character 0 w2 = (Ok (), w3)
       ∧ dict_lookup (KStr "Aria") (characters w3) = Some 0%nat
       ∧ dict_lookup (KStr "Brom") (characters w3) = Some 0%nat
       ∧ is_Some (disk w3 !! filename_of "Aria")
       ∧ is_Some (disk w3 !! filename_of "Brom")
       ∧ (filename_of "Aria" ≠ filename_of "Brom" →
          disk w3 !! filename_of "Aria" = disk w1 !! filename_of "Aria")).
Proof.
  apply (save_character_rename_keeps_old (pair_world "Aria" "Brom")
           0%nat 1%nat (example_character "Aria" 5) (example_character "Brom" 6)
           "Aria" "Brom").
  - reflexivity.
  - reflexivity.
  - reflexivity.
  - reflexivity.
  - discriminate.
  - reflexivity.
  - reflexivity.
Defined.

(** C9 — Delete is not atomic.  When the name has no entry in the mapping
    but the file derived from it exists, [delete_character] removes the
    file and then raises [KeyError]: the call fails and the directory has
    changed all the same. *)
Theorem delete_character_not_atomic (w : World) (s : string) :
  dict_lookup (KStr s) (characters w) = None →
  is_Some (disk w !! filename_of s) →
  ∃ w',
    delete_character (PStr s) w = (Raise KeyError, w')
    ∧ disk w' = delete (filename_of s) (disk w)
    ∧ disk w' !! filename_of s = None
    ∧ disk w' ≠ disk w
    ∧ characters w' = characters w.
Proof.
  intros Hs Hfile. eexists.
  split; [apply delete_character_missing; [by left | done]|].
  cbn [disk characters]. split_and!; try done.
  - apply lookup_delete_eq.
  - intros Heq. rewrite <- Heq, lookup_delete_eq in Hfile. by destruct Hfile.
Qed.

Lemma delete_character_not_atomic_witness :
  ∃ w',
    delete_character (PStr "Aria") (cleared aria_world) = (Raise KeyError, w')
    ∧ disk w' = delete (filename_of "Aria") (disk (cleared aria_world))
    ∧ disk w' !! filename_of "Aria" = None
    ∧ disk w' ≠ disk (cleared aria_world)
    ∧ characters w' = characters (cleared aria_world).
Proof.
  apply (delete_character_not_atomic (cleared aria_world) "Aria").
  - reflexivity.
  - exists (Json (PDict (dict_of aria))). reflexivity.
Defined.

(** C10 — The derivation of file names is not injective.  The names
    ["a b"] and ["a_b"] differ and derive the same file.  Saving a
    character under each, in a directory written by the store, gives two
    entries of the mapping, for two objects, and a single file, which
    holds the second character; reloading the directory, in whatever
    order it is enumerated, finds ["a_b"] with those fields and does not
    find ["a b"]. *)
Theorem filename_of_not_injective
    (w : World) (first second : loc) (c1 c2 : Character) :
  heap w !! first = Some c1 → heap w !! second = Some c2 →
  name c1 = PStr "a b" → name c2 = PStr "a_b" →
  consistent_dir (disk w) →
  "a b" ≠ "a_b"
  ∧ filename_of "a b" = filename_of "a_b"
  ∧ ∃ w1 w2 c2',
      save_character first w = (Ok (), w1)
      ∧ save_character second w1 = (Ok (), w2)
      ∧ first ≠ second
      ∧ get_character (PStr "a b") w2 = (Ok (Some first), w2)
      ∧ get_character (PStr "a_b") w2 = (Ok (Some second), w2)
      ∧ heap w2 !! second = Some c2'
      ∧ name c2' = PStr "a_b"
      ∧ disk w2 !! "a_b.json" = Some (Json (PDict (dict_of c2')))
      ∧ dom (disk w2) = {["a_b.json"]} ∪ dom (disk w)
      ∧ ∀ order, glob_enumerates (disk w2) order →
          ∃ w3 r,
            load_all_characters order w2 = (Ok (), w3)
            ∧ get_character (PStr "a b") w3 = (Ok None, w3)
            ∧ get_character (PStr "a_b") w3 = (Ok (Some r), w3)
            ∧ heap w3 !! r = Some c2'.
Proof.
  intros H1 H2 Hn1 Hn2 Hdir.
  assert (Hne : first ≠ second) by (intros ->; congruence).
  split; [discriminate|]. split; [reflexivity|].
  set (c1' := set_modified_date (stamp w (ticks w)) c1).
  set (w1 := mkWorld (clock w) (S (ticks w)) (<[first := c1']> (heap w))
               (<["a_b.json" := Json (PDict (dict_of c1'))]> (disk w))
               (dict_insert (KStr "a b") first (characters w))).
  set (c2' := set_modified_date (stamp w1 (ticks w1)) c2).
  set (w2 := mkWorld (clock w1) (S (ticks w1)) (<[second := c2']> (heap w1))
               (<["a_b.json" := Json (PDict (dict_of c2'))]> (disk w1))
               (dict_insert (KStr "a_b") second (characters w1))).
  assert (H2' : heap w1 !! second = Some c2).
  { cbn [heap w1]. by rewrite list_lookup_insert_ne. }
  assert (Hdisk : disk w2 = <["a_b.json" := Json (PDict (dict_of c2'))]> (disk w)).
  { unfold w2, w1 at 4. cbn [disk]. apply insert_insert_eq. }
  exists w1, w2, c2'. split_and!.
  - exact (save_character_spec w first c1 "a b" H1 Hn1 eq_refl).
  - exact (save_character_spec w1 second c2 "a_b" H2' Hn2 eq_refl).
  - done.
  - rewrite get_character_spec. cbn [characters w1 w2].
    rewrite dict_lookup_insert_ne by discriminate.
    by rewrite dict_lookup_insert_eq.
  - rewrite get_character_spec. cbn [characters w2].
    by rewrite dict_lookup_insert_eq.
  - by eapply heap_insert_eq.
  - exact Hn2.
  - rewrite Hdisk. apply lookup_insert_eq.
  - by rewrite Hdisk, dom_insert_L.
  - intros order Horder.
    destruct (reload_consistent w2 order) as (w3 & Hrun & Hw3 & Hfound & Hlost).
    { rewrite Hdisk. by apply (consistent_dir_save _ c2' "a_b"). }
    { done. }
    destruct (Hfound "a_b" (dict_of c2')) as (r & t1 & t2 & Hr & Hheap & _).
    { rewrite Hdisk. apply lookup_insert_eq. }
    { rewrite dict_of_name. unfold c2'. cbn [name set_modified_date].
      by rewrite Hn2. }
    { reflexivity. }
    exists w3, r. split_and!.
    + done.
    + rewrite get_character_spec, Hlost; [done|].
      intros doc Hdoc. change (filename_of "a b") with "a_b.json" in Hdoc.
      rewrite Hdisk, lookup_insert_eq in Hdoc.
      injection Hdoc as <-. rewrite dict_of_name. unfold c2'.
      cbn [name set_modified_date]. rewrite Hn2. discriminate.
    + by rewrite get_character_spec, Hr.
    + by rewrite Hheap, record_of_dict_of.
Qed.

Lemma filename_of_not_injective_witness :
  "a b" ≠ "a_b"
  ∧ filename_of "a b" = filename_of "a_b"
  ∧ ∃ w1 w2 c2',
      save_character 0 (pair_world "a b" "a_b") = (Ok (), w1)
      ∧ save_character 1 w1 = (Ok (), w2)
      ∧ 0%nat ≠ 1%nat
      ∧ get_character (PStr "a b") w2 = (Ok (Some 0%nat), w2)
      ∧ get_character (PStr "a_b") w2 = (Ok (Some 1%nat), w2)
      ∧ heap w2 !! 1%nat = Some c2'
      ∧ name c2' = PStr "a_b"
      ∧ disk w2 !! "a_b.json" = Some (Json (PDict (dict_of c2')))
      ∧ dom (disk w2) = {["a_b.json"]} ∪ dom (∅ : gmap string file)
      ∧ ∀ order, glob_enumerates (disk w2) order →
          ∃ w3 r,
            load_all_characters order w2 = (Ok (), w3)
            ∧ get_character (PStr "a b") w3 = (Ok None, w3)
            ∧ get_character (PStr "a_b") w3 = (Ok (Some r), w3)
            ∧ heap w3 !! r = Some c2'.
Proof.
  apply (filename_of_not_injective (pair_world "a b" "a_b")
           0%nat 1%nat (example_character "a b" 5) (example_character "a_b" 6)).
  - reflexivity.
  - reflexivity.
  - reflexivity.
  - reflexivity.
  - apply consistent_dir_empty.
Defined.

(** ** Further properties of the code *)

(** X1 — A file that cannot be loaded aborts the load.  When the files
    enumerated before [p] load and [p] does not (it is not text, or not
    JSON, its document is not an object, or the name in it is
    unhashable), [load_all_characters] raises the exception of [p] and
    stops there, in the state that the files before [p] have built: the
    mapping holds their entries and nothing of the mapping that was there
    before the call, the directory is as before, no object has been built
    and the clock has not been read for [p] or for a file after it, but
    for the object of [p] itself when it is the name that cannot be a
    key.  The files after [p] are not read: the outcome is that very one
    whatever the directory holds at the other paths. *)
Theorem load_all_characters_aborts
    (w : World) (pre post : list string) (p : string) (e : exn) :
  (∀ q, q ∈ pre → is_Some (file_key (disk w) q)) →
  load_error (disk w) p = Some e →
  ∃ w1,
    load_all_characters pre w = (Ok (), w1)
    ∧ load_all_characters (pre ++ p :: post) w = (Raise e, stopped_at w1 p)
    ∧ (e ≠ TypeError → stopped_at w1 p = w1)
    ∧ (e = TypeError →
       ∃ doc, disk w !! p = Some (Json (PDict doc))
              ∧ stopped_at w1 p = half_loaded w1 doc)
    ∧ characters (stopped_at w1 p) = characters w1
    ∧ disk (stopped_at w1 p) = disk w
    ∧ (pre = [] → characters (stopped_at w1 p) = [])
    ∧ ∀ d' : gmap string file,
        (∀ q, q ∈ pre ∨ q = p → d' !! q = disk w !! q) →
        load_all_characters (pre ++ p :: post) (set_disk d' w)
        = (Raise e, set_disk d' (stopped_at w1 p)).
Proof.
  intros Hpre He.
  destruct (load_all_characters_spec w pre Hpre) as (w1 & Hrun & Hw1).
  assert (Hrun' : for_each pre load_file (cleared w) = (Ok (), w1)).
  { unfold load_all_characters in Hrun. by erewrite bind_ok in Hrun. }
  assert (Hd1 : disk w1 = disk w) by apply (loaded_disk _ _ _ Hw1).
  assert (He1 : load_error (disk w1) p = Some e) by (by rewrite Hd1).
  assert (Hc : characters (stopped_at w1 p) = characters w1
               ∧ disk (stopped_at w1 p) = disk w).
  { unfold stopped_at. destruct (file_doc (disk w1) p); by rewrite <- Hd1. }
  exists w1. split_and!.
  - done.
  - unfold load_all_characters. mstep. fold (cleared w).
    rewrite for_each_app. mstep_with ltac:(exact Hrun').
    cbn [for_each]. erewrite bind_raise; [done|].
    by apply load_file_error_exact.
  - intros Hne. by eapply stopped_at_TypeError.
  - intros ->. unfold load_error in He. unfold stopped_at, file_doc.
    rewrite Hd1. destruct (disk w !! p) as [[[| | | | |d]| |]|]; try done.
    by exists d.
  - apply Hc.
  - apply Hc.
  - intros ->. rewrite (proj1 Hc). cbn in Hrun'. by injection Hrun' as <-.
  - intros d' Hagree. unfold load_all_characters. mstep.
    change (mkWorld (clock (set_disk d' w)) (ticks (set_disk d' w))
              (heap (set_disk d' w)) (disk (set_disk d' w)) [])
      with (set_disk d' (cleared w)).
    rewrite for_each_app.
    mstep_with ltac:(rewrite for_each_load_file_set_disk, Hrun';
                     [reflexivity | by intros q Hq; apply Hagree; left]).
    cbn [for_each]. erewrite bind_raise; [done|].
    rewrite load_file_set_disk by (rewrite Hd1; apply Hagree; by right).
    by rewrite (load_file_error_exact w1 p e He1).
Qed.

Lemma load_all_characters_aborts_witness :
  ∃ w1,
    load_all_characters ["a.json"] garbled_world = (Ok (), w1)
    ∧ load_all_characters (["a.json"] ++ "b.json" :: ["c.json"]) garbled_world
      = (Raise UnicodeDecodeError, stopped_at w1 "b.json")
    ∧ (UnicodeDecodeError ≠ TypeError → stopped_at w1 "b.json" = w1)
    ∧ (UnicodeDecodeError = TypeError →
       ∃ doc, disk garbled_world !! "b.json" = Some (Json (PDict doc))
              ∧ stopped_at w1 "b.json" = half_loaded w1 doc)
    ∧ characters (stopped_at w1 "b.json") = characters w1
    ∧ disk (stopped_at w1 "b.json") = disk garbled_world
    ∧ (["a.json"] = [] → characters (stopped_at w1 "b.json") = [])
    ∧ ∀ d' : gmap string file,
        (∀ q, q ∈ ["a.json"] ∨ q = "b.json" →
              d' !! q = disk garbled_world !! q) →
        load_all_characters (["a.json"] ++ "b.json" :: ["c.json"])
          (set_disk d' garbled_world)
        = (Raise UnicodeDecodeError, set_disk d' (stopped_at w1 "b.json")).
Proof.
  apply (load_all_characters_aborts garbled_world ["a.json"] ["c.json"] "b.json"
           UnicodeDecodeError).
  - intros q ->%list_elem_of_singleton. by eexists.
  - reflexivity.
Defined.

(** The same on a file that is text but not JSON. *)
Example load_all_characters_malformed :
  load_all_characters ["a.json"; "b.json"; "c.json"] broken_world
  = (Raise JSONDecodeError,
     snd (load_all_characters ["a.json"] broken_world)).
Proof. reflexivity. Qed.

(** X2 — Loading only reads.  Whatever the directory holds and in
    whatever order it is enumerated, whether the load succeeds or raises,
    [load_all_characters] leaves every file as it was and every object
    that existed before the call untouched. *)
Theorem load_all_characters_reads_only (w : World) (order : list string) :
  disk (snd (load_all_characters order w)) = disk w
  ∧ ∀ l c, heap w !! l = Some c →
      heap (snd (load_all_characters order w)) !! l = Some c.
Proof.
  unfold load_all_characters. erewrite bind_ok; [|reflexivity].
  exact (for_each_load_file_reads_only order (cleared w)).
Qed.

(** X3 — Saving a character whose name is not text fails half way.  When
    the name of the object is not a [str], [save_character] raises
    [AttributeError]; no file is written and the mapping is unchanged,
    but the [modified_date] of the object has already been set to the
    reading of the clock. *)
Theorem save_character_bad_name (w : World) (character : loc) (c : Character) :
  heap w !! character = Some c →
  (∀ s, name c ≠ PStr s) →
  ∃ w',
    save_character character w = (Raise AttributeError, w')
    ∧ disk w' = disk w
    ∧ characters w' = characters w
    ∧ heap w' !! character =
        Some (set_modified_date (PStr (isoformat (clock w (ticks w)))) c).
Proof.
  intros Hl Hn.
  pose proof (heap_insert_eq _ _ _ (set_modified_date (stamp w (ticks w)) c) Hl)
    as Hl'.
  eexists. split.
  - unfold save_character.
    mstep. mstep_with ltac:(by apply update_ok).
    mstep_with ltac:(by apply deref_ok).
    cbn [name set_modified_date].
    destruct (name c) eqn:E; try reflexivity. by destruct (Hn s).
  - cbn [disk characters heap]. done.
Qed.

Lemma save_character_bad_name_witness :
  ∃ w',
    save_character 1 numbered_world = (Raise AttributeError, w')
    ∧ disk w' = disk numbered_world
    ∧ characters w' = characters numbered_world
    ∧ heap w' !! 1%nat =
        Some (set_modified_date (PStr (isoformat (example_clock 4)))
                numbered_character).
Proof.
  apply (save_character_bad_name numbered_world 1%nat numbered_character).
  - reflexivity.
  - discriminate.
Defined.

(** X4 — A save touches one name only.  The [save_character] of an
    object named [s], a name whose file can be opened for writing,
    succeeds; it leaves every other entry of the mapping, every other
    file and every other object as they were, keeps the entries of the
    mapping in their order, and adds one entry at the end exactly when
    [s] had none. *)
Theorem save_character_frame
    (w : World) (character : loc) (c : Character) (s : string) :
  heap w !! character = Some c → name c = PStr s → storable s →
  ∃ w',
    save_character character w = (Ok (), w')
    ∧ (∀ k, k ≠ KStr s →
         dict_lookup k (characters w') = dict_lookup k (characters w))
    ∧ (∀ p, p ≠ filename_of s → disk w' !! p = disk w !! p)
    ∧ (∀ l, l ≠ character → heap w' !! l = heap w !! l)
    ∧ dict_keys (characters w') =
        match dict_lookup (KStr s) (characters w) with
        | Some _ => dict_keys (characters w)
        | None => (dict_keys (characters w) ++ [KStr s])%list
        end.
Proof.
  intros Hl Hn Hst. eexists. split; [by apply save_character_spec|].
  cbn [characters disk heap]. split_and!.
  - intros k Hk. by apply dict_lookup_insert_ne.
  - intros p Hp. by apply lookup_insert_ne.
  - intros l Hne. by apply list_lookup_insert_ne.
  - apply dict_keys_insert.
Qed.

Lemma save_character_frame_witness :
  ∃ w',
    save_character 0 aria_world = (Ok (), w')
    ∧ (∀ k, k ≠ KStr "Aria" →
         dict_lookup k (characters w') = dict_lookup k (characters aria_world))
    ∧ (∀ p, p ≠ filename_of "Aria" → disk w' !! p = disk aria_world !! p)
    ∧ (∀ l, l ≠ 0%nat → heap w' !! l = heap aria_world !! l)
    ∧ dict_keys (characters w') =
        match dict_lookup (KStr "Aria") (characters aria_world) with
        | Some _ => dict_keys (characters aria_world)
        | None => (dict_keys (characters aria_world) ++ [KStr "Aria"])%list
        end.
Proof.
  apply (save_character_frame aria_world 0%nat aria "Aria"); reflexivity.
Defined.

(** X5 — Memory and disk agree after a save.  After the
    [save_character] of an object named [s], a name whose file can be
    opened for writing, [get_character(s)] returns that very object and
    the file derived from [s] holds exactly what [to_dict] returns for
    it. *)
Theorem save_character_then_get
    (w : World) (character : loc) (c : Character) (s : string) :
  heap w !! character = Some c → name c = PStr s → storable s →
  ∃ w' doc,
    save_character character w = (Ok (), w')
    ∧ get_character (PStr s) w' = (Ok (Some character), w')
    ∧ to_dict character w' = (Ok doc, w')
    ∧ disk w' !! filename_of s = Some (Json doc).
Proof.
  intros Hl Hn Hst. eexists _, _. split; [by apply save_character_spec|].
  split_and!.
  - rewrite get_character_spec. cbn [characters].
    by rewrite dict_lookup_insert_eq.
  - apply to_dict_spec. cbn [heap]. by eapply heap_insert_eq.
  - cbn [disk]. apply lookup_insert_eq.
Qed.

Lemma save_character_then_get_witness :
  ∃ w' doc,
    save_character 1 (pair_world "Aria" "Brom") = (Ok (), w')
    ∧ get_character (PStr "Brom") w' = (Ok (Some 1%nat), w')
    ∧ to_dict 1 w' = (Ok doc, w')
    ∧ disk w' !! filename_of "Brom" = Some (Json doc).
Proof.
  apply (save_character_then_get (pair_world "Aria" "Brom") 1%nat
           (example_character "Brom" 6) "Brom"); reflexivity.
Defined.

(** X6 — Saving again changes the date only.  When the mapping already
    files the object under its name, a name whose file can be opened for
    writing, saving it again leaves the mapping exactly as it is, order
    included, changes nothing of the object but its [modified_date], and
    rewrites its file with that one change. *)
Theorem save_character_again
    (w : World) (character : loc) (c : Character) (s : string) :
  heap w !! character = Some c → name c = PStr s → storable s →
  dict_lookup (KStr s) (characters w) = Some character →
  ∃ w' t,
    save_character character w = (Ok (), w')
    ∧ characters w' = characters w
    ∧ heap w' !! character = Some (set_modified_date t c)
    ∧ disk w' !! filename_of s = Some (Json (PDict (dict_of (set_modified_date t c))))
    ∧ t = PStr (isoformat (clock w (ticks w))).
Proof.
  intros Hl Hn Hst Hk. eexists _, _. split; [by apply save_character_spec|].
  cbn [characters disk heap]. split_and!.
  - by apply dict_insert_same.
  - by eapply heap_insert_eq.
  - apply lookup_insert_eq.
  - reflexivity.
Qed.

Lemma save_character_again_witness :
  ∃ w' t,
    save_character 0 aria_world = (Ok (), w')
    ∧ characters w' = characters aria_world
    ∧ heap w' !! 0%nat = Some (set_modified_date t aria)
    ∧ disk w' !! filename_of "Aria"
      = Some (Json (PDict (dict_of (set_modified_date t aria))))
    ∧ t = PStr (isoformat (example_clock 3)).
Proof.
  apply (save_character_again aria_world 0%nat aria "Aria"); reflexivity.
Defined.

(** X7 — Delete undoes a save of a new name.  When the name [s] has no
    entry, the file derived from it does not exist and can be opened for
    writing, saving an object named [s] and then deleting [s] both
    succeed and bring the mapping and the directory back to what they
    were. *)
Theorem save_then_delete_restores
    (w : World) (character : loc) (c : Character) (s : string) :
  heap w !! character = Some c → name c = PStr s → storable s →
  dict_lookup (KStr s) (characters w) = None →
  disk w !! filename_of s = None →
  ∃ w1 w2,
    save_character character w = (Ok (), w1)
    ∧ delete_character (PStr s) w1 = (Ok (), w2)
    ∧ characters w2 = characters w
    ∧ disk w2 = disk w.
Proof.
  intros Hl Hn Hst Hk Hf. eexists _, _. split; [by apply save_character_spec|].
  split.
  { eapply delete_character_spec; cbn [characters disk].
    - left. rewrite lookup_insert_eq. eauto.
    - apply dict_lookup_insert_eq. }
  cbn [characters disk]. split.
  - by apply dict_remove_insert.
  - rewrite delete_insert_eq. by apply delete_id.
Qed.

Lemma save_then_delete_restores_witness :
  ∃ w1 w2,
    save_character 1 (pair_world "Aria" "Brom") = (Ok (), w1)
    ∧ delete_character (PStr "Brom") w1 = (Ok (), w2)
    ∧ characters w2 = characters (pair_world "Aria" "Brom")
    ∧ disk w2 = disk (pair_world "Aria" "Brom").
Proof.
  apply (save_then_delete_restores (pair_world "Aria" "Brom") 1%nat
           (example_character "Brom" 6) "Brom"); reflexivity.
Defined.

(** X8 — A delete touches one name only.  The [delete_character] of a
    name [s] that has an entry, and whose file is there or can be looked
    for, succeeds; it takes one entry out of the mapping and leaves every
    other entry, every file but the one derived from [s], every object
    and the clock as they were. *)
Theorem delete_character_frame (w : World) (s : string) (l : loc) :
  dict_lookup (KStr s) (characters w) = Some l →
  is_Some (disk w !! filename_of s) ∨ stat_error (filename_of s) = None →
  ∃ w',
    delete_character (PStr s) w = (Ok (), w')
    ∧ (∀ k, k ≠ KStr s →
         dict_lookup k (characters w') = dict_lookup k (characters w))
    ∧ (∀ p, p ≠ filename_of s → disk w' !! p = disk w !! p)
    ∧ heap w' = heap w
    ∧ ticks w' = ticks w
    ∧ S (length (characters w')) = length (characters w).
Proof.
  intros Hl Hprobe. eexists. split; [by apply (delete_character_spec w s l)|].
  cbn [characters disk heap ticks]. split_and!; try done.
  - intros k Hk. by apply dict_lookup_remove_ne.
  - intros p Hp. by apply lookup_delete_ne.
  - by eapply dict_length_remove.
Qed.

Lemma delete_character_frame_witness :
  ∃ w',
    delete_character (PStr "Anna") trio_world = (Ok (), w')
    ∧ (∀ k, k ≠ KStr "Anna" →
         dict_lookup k (characters w') = dict_lookup k (characters trio_world))
    ∧ (∀ p, p ≠ filename_of "Anna" → disk w' !! p = disk trio_world !! p)
    ∧ heap w' = heap trio_world
    ∧ ticks w' = ticks trio_world
    ∧ S (length (characters w')) = length (characters trio_world).
Proof.
  apply (delete_character_frame trio_world "Anna" 1%nat);
    [reflexivity | by right].
Defined.

(** X9 — Renaming by delete, then save.  In a mapping that is a
    dictionary, deleting the name [A], whose file is there or can be
    looked for, and then saving an object named [B], a different name
    whose file can be opened for writing, leaves no entry for [A] and
    files the object under [B] with its file written; when the two names
    derive different files, the file of [A] is gone. *)
Theorem delete_then_save_renames
    (w : World) (old new : loc) (c : Character) (A B : string) :
  dict_wf (characters w) →
  dict_lookup (KStr A) (characters w) = Some old →
  heap w !! new = Some c → name c = PStr B → A ≠ B →
  is_Some (disk w !! filename_of A) ∨ stat_error (filename_of A) = None →
  storable B →
  ∃ w1 w2 c',
    delete_character (PStr A) w = (Ok (), w1)
    ∧ save_character new w1 = (Ok (), w2)
    ∧ get_character (PStr A) w2 = (Ok None, w2)
    ∧ get_character (PStr B) w2 = (Ok (Some new), w2)
    ∧ heap w2 !! new = Some c'
    ∧ disk w2 !! filename_of B = Some (Json (PDict (dict_of c')))
    ∧ (filename_of A ≠ filename_of B → disk w2 !! filename_of A = None).
Proof.
  intros Hwf Hold Hnew Hn HAB Hp Hst.
  eexists _, _, _. split; [by apply (delete_character_spec w A old)|].
  split; [by apply save_character_spec|].
  cbn [characters disk heap ticks clock]. split_and!.
  - rewrite get_character_spec. cbn [characters].
    rewrite dict_lookup_insert_ne by congruence.
    by rewrite dict_lookup_remove_eq.
  - rewrite get_character_spec. cbn [characters].
    by rewrite dict_lookup_insert_eq.
  - by eapply heap_insert_eq.
  - apply lookup_insert_eq.
  - intros Hf. rewrite lookup_insert_ne by done. apply lookup_delete_eq.
Qed.

Lemma delete_then_save_renames_witness :
  ∃ w1 w2 c',
    delete_character (PStr "zed") trio_world = (Ok (), w1)
    ∧ save_character 1 w1 = (Ok (), w2)
    ∧ get_character (PStr "zed") w2 = (Ok None, w2)
    ∧ get_character (PStr "Anna") w2 = (Ok (Some 1%nat), w2)
    ∧ heap w2 !! 1%nat = Some c'
    ∧ disk w2 !! filename_of "Anna" = Some (Json (PDict (dict_of c')))
    ∧ (filename_of "zed" ≠ filename_of "Anna" →
       disk w2 !! filename_of "zed" = None).
Proof.
  apply (delete_then_save_renames trio_world 0%nat 1%nat
           (example_character "Anna" 2) "zed" "Anna").
  - apply trio_world_wf.
  - reflexivity.
  - reflexivity.
  - reflexivity.
  - discriminate.
  - by right.
  - reflexivity.
Defined.

(** X10 — Listing fails on a name that is not text.  When every entry of
    the mapping refers to an object and one of these objects has a name
    that is not a [str], [list_characters] raises [AttributeError] and
    returns no list; the state is unchanged. *)
Theorem list_characters_bad_name (w : World) (l : loc) (c : Character) :
  (∀ l', l' ∈ dict_values (characters w) → is_Some (heap w !! l')) →
  l ∈ dict_values (characters w) →
  heap w !! l = Some c →
  (∀ s, name c ≠ PStr s) →
  list_characters w = (Raise AttributeError, w).
Proof.
  intros Hvalid Hin Hc Hbad. unfold list_characters. mstep.
  erewrite bind_raise; [done|]. apply map_M_sort_key_bad; eauto.
Qed.

Lemma list_characters_bad_name_witness :
  list_characters numbered_world = (Raise AttributeError, numbered_world).
Proof.
  apply (list_characters_bad_name numbered_world 1%nat numbered_character).
  - intros l' Hl'. cbn in Hl'.
    apply elem_of_cons in Hl' as [-> | Hl']; [by eexists|].
    apply list_elem_of_singleton in Hl' as ->. by eexists.
  - cbn. apply list_elem_of_further, list_elem_of_here.
  - reflexivity.
  - discriminate.
Defined.

(** X11 — Listing is stable.  In a store whose characters are named by
    text, the characters whose names are the same once lowercased appear
    in the list in the order in which the mapping holds them, which is
    the order in which their names were first saved or loaded. *)
Theorem list_characters_stable (w : World) (k : string) :
  names_are_text w →
  ∃ ls,
    list_characters w = (Ok ls, w)
    ∧ filter (λ l, name_key w l = k) ls =
      filter (λ l, name_key w l = k) (dict_values (characters w)).
Proof.
  intros Htext. eexists. split; [by apply list_characters_spec|].
  set (keyed := map (λ l, (name_key w l, l)) (dict_values (characters w))).
  assert (Hkeyed : ∀ e, e ∈ keyed → e.1 = name_key w e.2).
  { intros e (l & -> & _)%list_elem_of_fmap. done. }
  rewrite <- (filter_key_snd w k).
  - rewrite sorted_by_key_stable. rewrite (filter_key_snd w k) by done.
    unfold keyed. rewrite map_map. cbn. by rewrite map_id.
  - intros e He. rewrite sorted_by_key_perm in He. by apply Hkeyed.
Qed.

Lemma list_characters_stable_witness :
  ∃ ls,
    list_characters case_world = (Ok ls, case_world)
    ∧ filter (λ l, name_key case_world l = "bob") ls =
      filter (λ l, name_key case_world l = "bob")
        (dict_values (characters case_world)).
Proof.
  apply (list_characters_stable case_world "bob").
  intros l Hl. cbn in Hl.
  apply elem_of_cons in Hl as [-> | Hl]; [by eexists _, _|].
  apply elem_of_cons in Hl as [-> | Hl]; [by eexists _, _|].
  apply elem_of_cons in Hl as [-> | Hl]; [by eexists _, _|].
  apply elem_of_cons in Hl as [-> | Hl]; [by eexists _, _|].
  by apply elem_of_nil in Hl.
Defined.

(** X12 — The store keeps its invariants.  Call a state sound when the
    mapping has one entry per key, every entry refers to an object whose
    name is text and is filed under that very name, and every record file
    of the directory holds an object whose text name derives the file's
    path.  Any [save_character] of an object with a text name without
    [/] and any [delete_character] of a text name, successful or not, and
    the constructor of the store over a sound directory all end in a
    sound state; the save succeeds when the file of the name can be
    opened for writing. *)
Theorem store_inv_kept :
  (∀ (w : World) (character : loc) (c : Character) (s : string),
     store_inv w → consistent_dir (disk w) →
     heap w !! character = Some c → name c = PStr s →
     contains_char "/" s = false →
     store_inv (snd (save_character character w))
     ∧ consistent_dir (disk (snd (save_character character w)))
     ∧ (storable s → fst (save_character character w) = Ok ()))
  ∧ (∀ (w : World) (s : string),
       store_inv w → consistent_dir (disk w) →
       store_inv (snd (delete_character (PStr s) w))
       ∧ consistent_dir (disk (snd (delete_character (PStr s) w))))
  ∧ (∀ (w : World) (order : list string),
       consistent_dir (disk w) → glob_enumerates (disk w) order →
       ∃ w', CharacterDatabase_init order w = (Ok (), w')
             ∧ store_inv w' ∧ consistent_dir (disk w')).
Proof.
  split_and!.
  - intros w l c s (Hwf & Htext & Hkeyed) Hdir Hl Hn _.
    pose proof (names_are_text_save w l c s Htext Hl Hn) as Htext'.
    pose proof (keyed_by_name_save w l c s Hkeyed Hl Hn) as Hkeyed'.
    destruct (open_error (filename_of s)) as [e|] eqn:Hs.
    + rewrite (save_character_unstorable w l c s e Hl Hn Hs) in *.
      cbn [snd fst] in *. split_and!; try done.
      intros Hst. unfold storable in Hst. congruence.
    + rewrite (save_character_spec w l c s Hl Hn Hs) in *.
      cbn [snd fst] in *. unfold store_inv. split_and!; try done.
      * cbn [characters]. by apply dict_wf_insert.
      * cbn [disk]. by apply consistent_dir_save.
  - intros w s (Hwf & Htext & Hkeyed) Hdir.
    pose proof (names_are_text_delete w s Htext) as Htext'.
    pose proof (keyed_by_name_delete w s Hkeyed) as Hkeyed'.
    destruct (delete_character_cases w s) as [Hp | [e He]];
      [|by rewrite He in *].
    destruct (dict_lookup (KStr s) (characters w)) as [l|] eqn:E.
    + rewrite (delete_character_spec w s l Hp E) in *. cbn [snd] in *.
      split; [split_and!; try done|].
      * cbn [characters]. by apply dict_wf_remove.
      * cbn [disk]. by apply consistent_dir_delete.
    + rewrite (delete_character_missing w s Hp E) in *. cbn [snd] in *.
      split; [split_and!; done|].
      cbn [disk]. by apply consistent_dir_delete.
  - intros w order Hdir Horder.
    destruct (reload_consistent w order Hdir Horder) as (w' & Hrun & Hw' & _ & _).
    destruct (names_are_text_reload w order Hdir Horder) as [Htext Hwf].
    rewrite Hrun in Htext, Hwf. cbn [snd] in Htext, Hwf.
    exists w'. split; [by rewrite CharacterDatabase_init_load|].
    split; [split_and!|].
    + exact Hwf.
    + exact Htext.
    + by eapply keyed_by_name_loaded.
    + by rewrite (loaded_disk _ _ _ Hw').
Qed.

Lemma store_inv_kept_witness :
  (store_inv (snd (save_character 1 trio_world))
   ∧ consistent_dir (disk (snd (save_character 1 trio_world)))
   ∧ (storable "Anna" → fst (save_character 1 trio_world) = Ok ()))
  ∧ (store_inv (snd (delete_character (PStr "bob") trio_world))
     ∧ consistent_dir (disk (snd (delete_character (PStr "bob") trio_world))))
  ∧ (∀ order, glob_enumerates (disk aria_world) order →
       ∃ w', CharacterDatabase_init order aria_world = (Ok (), w')
             ∧ store_inv w' ∧ consistent_dir (disk w')).
Proof.
  split; [|split].
  - apply (proj1 store_inv_kept trio_world 1%nat (example_character "Anna" 2) "Anna").
    + apply trio_world_inv.
    + apply consistent_dir_empty.
    + reflexivity.
    + reflexivity.
    + reflexivity.
  - apply (proj1 (proj2 store_inv_kept) trio_world "bob").
    + apply trio_world_inv.
    + apply consistent_dir_empty.
  - intros order. apply (proj2 (proj2 store_inv_kept) aria_world order).
    apply aria_world_consistent.
Defined.

(** X13 — The Delete button of the list in a sound store.  When the
    mapping has one entry per key and files every object under its text
    name, then for every character that [list_characters] returns, and
    whose file is there or can be looked for, [delete_character(char.name)]
    succeeds, takes exactly one entry out of the mapping, and leaves no
    entry that refers to the character. *)
Theorem delete_button_succeeds
    (w : World) (ls : list loc) (char : loc) (c : Character) (s : string) :
  store_inv w →
  list_characters w = (Ok ls, w) →
  char ∈ ls →
  heap w !! char = Some c → name c = PStr s →
  is_Some (disk w !! filename_of s) ∨ stat_error (filename_of s) = None →
  ∃ w',
    delete_button char w = (Ok (), w')
    ∧ S (length (characters w')) = length (characters w)
    ∧ (char ∉ dict_values (characters w'))
    ∧ store_inv w'.
Proof.
  intros (Hwf & Htext & Hkeyed) Hlist Hin Hc Hn Hp.
  rewrite (list_characters_spec w Htext) in Hlist. injection Hlist as <-.
  assert (Hval : char ∈ dict_values (characters w)).
  { apply list_elem_of_fmap in Hin as (e & -> & He).
    rewrite sorted_by_key_perm in He.
    apply list_elem_of_fmap in He as (l & -> & Hl). done. }
  apply list_elem_of_fmap in Hval as ([k l] & Hsnd & Hentry).
  cbn [snd] in Hsnd. subst l.
  destruct (Hkeyed k char Hentry) as (c' & Hc' & Hk).
  rewrite Hc in Hc'. injection Hc' as <-.
  rewrite Hn in Hk. cbn in Hk. injection Hk as <-.
  pose proof (dict_lookup_elem _ _ _ Hwf Hentry) as Hlook.
  pose proof (names_are_text_delete w s Htext) as Htext'.
  pose proof (keyed_by_name_delete w s Hkeyed) as Hkeyed'.
  rewrite (delete_character_spec w s char Hp Hlook) in Htext', Hkeyed'.
  cbn [snd] in Htext', Hkeyed'.
  eexists. split.
  { unfold delete_button. mstep_with ltac:(by apply deref_ok).
    rewrite Hn. by apply (delete_character_spec w s char). }
  cbn [characters heap]. split_and!.
  - by eapply dict_length_remove.
  - intros ([k' l'] & Hsnd & Hin')%list_elem_of_fmap.
    cbn [snd] in Hsnd. subst l'.
    destruct (Hkeyed' k' char Hin') as (c0 & Hc0 & Hk0).
    cbn [heap] in Hc0. rewrite Hc in Hc0. injection Hc0 as <-.
    rewrite Hn in Hk0. cbn in Hk0. injection Hk0 as <-.
    pose proof (dict_lookup_remove_eq (KStr s) _ Hwf) as Hgone.
    apply dict_lookup_None in Hgone. apply Hgone.
    apply list_elem_of_fmap. by exists (KStr s, char).
  - split_and!; [by apply dict_wf_remove | exact Htext' | exact Hkeyed'].
Qed.

Lemma delete_button_succeeds_witness :
  ∃ w',
    delete_button 2 trio_world = (Ok (), w')
    ∧ S (length (characters w')) = length (characters trio_world)
    ∧ (2%nat ∉ dict_values (characters w'))
    ∧ store_inv w'.
Proof.
  apply (delete_button_succeeds trio_world [1; 2; 0]%nat 2%nat
           (example_character "bob" 3) "bob").
  - apply trio_world_inv.
  - reflexivity.
  - apply list_elem_of_further, list_elem_of_here.
  - reflexivity.
  - reflexivity.
  - by right.
Defined.

(** X14 — What is saved is what the next start finds.  In a directory
    written by the store, after the save of an object whose name is one
    whose file can be opened for writing, constructing the store anew, in
    whatever order the directory is enumerated, and asking for the name
    returns an object that the constructor has built, equal in every
    field, timestamps included, to the object as it was saved. *)
Theorem save_then_restart
    (w : World) (character : loc) (c : Character) (s : string) :
  consistent_dir (disk w) →
  heap w !! character = Some c → name c = PStr s →
  storable s →
  ∃ w1 c',
    save_character character w = (Ok (), w1)
    ∧ heap w1 !! character = Some c'
    ∧ ∀ order, glob_enumerates (disk w1) order →
        ∃ w2 r,
          (CharacterDatabase_init order ≫= λ _, get_character (PStr s)) w1
            = (Ok (Some r), w2)
          ∧ heap w1 !! r = None
          ∧ r ≠ character
          ∧ heap w2 !! r = Some c'
          ∧ heap w2 !! character = Some c'.
Proof.
  intros Hdir Hl Hn Hst.
  set (c' := set_modified_date (stamp w (ticks w)) c).
  eexists _, c'. split; [by apply save_character_spec|].
  split; [cbn [heap]; by eapply heap_insert_eq|].
  intros order Horder.
  set (w1 := mkWorld _ _ _ _ _) in *.
  destruct (reload_consistent w1 order) as (w2 & Hrun & Hw2 & Hfound & _).
  { by apply consistent_dir_save. }
  { done. }
  destruct (Hfound s (dict_of c')) as (r & t1 & t2 & Hr & Hheap & Hnew).
  { apply lookup_insert_eq. }
  { rewrite dict_of_name. unfold c'. cbn [name set_modified_date].
    by rewrite Hn. }
  { by apply storable_glob_match. }
  assert (Hsaved : heap w1 !! character = Some c')
    by (cbn [heap w1]; by eapply heap_insert_eq).
  exists w2, r. split_and!.
  - mstep_with ltac:(by rewrite CharacterDatabase_init_load).
    by rewrite get_character_spec, Hr.
  - exact Hnew.
  - intros ->. congruence.
  - by rewrite Hheap, record_of_dict_of.
  - apply (loaded_old _ _ _ Hw2). cbn [heap cleared]. by eapply heap_insert_eq.
Qed.

Lemma save_then_restart_witness :
  ∃ w1 c',
    save_character 1 (pair_world "Aria" "Brom the Bold") = (Ok (), w1)
    ∧ heap w1 !! 1%nat = Some c'
    ∧ ∀ order, glob_enumerates (disk w1) order →
        ∃ w2 r,
          (CharacterDatabase_init order ≫= λ _,
           get_character (PStr "Brom the Bold")) w1
            = (Ok (Some r), w2)
          ∧ heap w1 !! r = None
          ∧ r ≠ 1%nat
          ∧ heap w2 !! r = Some c'
          ∧ heap w2 !! 1%nat = Some c'.
Proof.
  apply (save_then_restart (pair_world "Aria" "Brom the Bold") 1%nat
           (example_character "Brom the Bold" 6) "Brom the Bold").
  - apply consistent_dir_empty.
  - reflexivity.
  - reflexivity.
  - reflexivity.
Defined.

(** X15 — The constructor files one entry per record file.  Over a
    directory written by the store, the constructor succeeds and the
    mapping it builds has exactly one entry for each file enumerated, in
    the order of the enumeration, whatever mapping there was before: the
    files are those derived from a list of names, and the keys of the
    mapping are those names in that order. *)
Theorem CharacterDatabase_init_mirrors (w : World) (order : list string) :
  consistent_dir (disk w) → glob_enumerates (disk w) order →
  ∃ w' names,
    CharacterDatabase_init order w = (Ok (), w')
    ∧ order = filename_of <$> names
    ∧ dict_keys (characters w') = KStr <$> names
    ∧ length (characters w') = length order.
Proof.
  intros Hdir Horder.
  destruct (consistent_dir_names _ _ Hdir Horder) as (names & Ho & Hks).
  destruct (reload_consistent w order Hdir Horder) as (w' & Hrun & Hw' & _ & _).
  assert (Hrun' : for_each order load_file (cleared w) = (Ok (), w')).
  { unfold load_all_characters in Hrun. by erewrite bind_ok in Hrun. }
  assert (Hkeys : dict_keys (characters w') = KStr <$> names).
  { rewrite (for_each_load_file_keys order (cleared w) w' (KStr <$> names) Hrun').
    - done.
    - exact Hks.
    - cbn [characters cleared dict_keys map app].
      apply filename_of_inj_names. rewrite <- Ho. apply Horder. }
  exists w', names. split_and!.
  - by rewrite CharacterDatabase_init_load.
  - done.
  - done.
  - rewrite Ho, length_fmap, <- (length_fmap KStr names), <- Hkeys.
    unfold dict_keys. by rewrite length_map.
Qed.

Lemma CharacterDatabase_init_mirrors_witness :
  ∃ w' names,
    CharacterDatabase_init ["Aria.json"] aria_world = (Ok (), w')
    ∧ ["Aria.json"] = filename_of <$> names
    ∧ dict_keys (characters w') = KStr <$> names
    ∧ length (characters w') = length ["Aria.json"].
Proof.
  apply (CharacterDatabase_init_mirrors aria_world ["Aria.json"]).
  - apply aria_world_consistent.
  - split; [apply NoDup_singleton|].
    intros p. cbn [disk aria_world]. split.
    + intros ->%list_elem_of_singleton. split; [by eexists | reflexivity].
    + intros [Hp _]. destruct (decide (p = "Aria.json")) as [-> | Hne].
      * apply list_elem_of_here.
      * change (filename_of "Aria") with "Aria.json" in Hp.
        rewrite lookup_insert_ne, lookup_empty in Hp by done. by destruct Hp.
Defined.

(** X16 — The form refuses a blank name.  When the name entered is empty
    or made of white space only, the Save button reports the error and
    does nothing else: no reading of the clock, no new object, no file,
    no change to the mapping. *)
Theorem save_button_blank
    (w : World) (editing_name : pyval) (s : string)
    (cl lv st dx co it wi ch : pyval) :
  is_Some (py_hash editing_name) →
  all_space s = true →
  save_button editing_name (PStr s) cl lv st dx co it wi ch w = (Ok false, w).
Proof.
  intros Hhash Hs.
  destruct (save_button_lookup w editing_name Hhash) as (existing & Hex & _).
  unfold save_button. mstep_with ltac:(exact Hex).
  mstep. by rewrite (proj2 (str_strip_empty s) Hs).
Qed.

Lemma save_button_blank_witness :
  save_button (PStr "Aria") (PStr "  ") (PStr "Bard") (PInt 4) (PInt 10)
    (PInt 10) (PInt 10) (PInt 10) (PInt 10) (PInt 10) aria_world
  = (Ok false, aria_world).
Proof.
  apply (save_button_blank aria_world (PStr "Aria") "  ").
  - by eexists.
  - reflexivity.
Defined.

(** X17 — The form carries the creation date over, also through a
    rename.  When the record being edited is in the mapping and the name
    entered is not blank and is one whose file can be opened for writing,
    the Save button saves a new object under the
    name exactly as entered, white space around it included, with the
    [created_date] of the record being edited and the reading of the
    clock at the save as [modified_date]; if the name entered differs
    from the name being edited, the old entry stays in the mapping. *)
Theorem save_button_edit
    (w : World) (en s : string) (e : loc) (ce : Character)
    (cl lv st dx co it wi ch : pyval) :
  en ≠ "" →
  dict_lookup (KStr en) (characters w) = Some e →
  heap w !! e = Some ce →
  all_space s = false →
  storable s →
  ∃ w' c,
    save_button (PStr en) (PStr s) cl lv st dx co it wi ch w = (Ok true, w')
    ∧ c = mkCharacter (PStr s) cl lv st dx co it wi ch (created_date ce)
            (PStr (isoformat (clock w (2 + ticks w))))
    ∧ get_character (PStr s) w' = (Ok (Some (length (heap w))), w')
    ∧ heap w' !! length (heap w) = Some c
    ∧ disk w' !! filename_of s = Some (Json (PDict (dict_of c)))
    ∧ (s ≠ en → get_character (PStr en) w' = (Ok (Some e), w')).
Proof.
  intros Hen He Hce Hs Hst.
  assert (Hstrip : str_strip s ≠ "").
  { intros H%str_strip_empty. congruence. }
  eexists _, _. split.
  { unfold save_button. cbn [py_truthy].
    rewrite (proj2 (String.eqb_neq en "") Hen). cbn [negb].
    mstep_with ltac:(apply get_character_spec). rewrite He.
    mstep. rewrite (proj2 (String.eqb_neq _ "") Hstrip). cbn [negb].
    apply (save_button_tail w (Some e) s cl lv st dx co it wi ch
             (created_date ce) Hst).
    by exists ce. }
  cbv zeta. cbn [characters heap disk]. split_and!.
  - reflexivity.
  - rewrite get_character_spec. cbn [characters].
    by rewrite dict_lookup_insert_eq.
  - apply heap_snoc_eq.
  - apply lookup_insert_eq.
  - intros Hne. rewrite get_character_spec. cbn [characters].
    rewrite dict_lookup_insert_ne by congruence. by rewrite He.
Qed.

Lemma save_button_edit_witness :
  ∃ w' c,
    save_button (PStr "Aria") (PStr " Aria the Bold") (PStr "Bard") (PInt 4)
      (PInt 10) (PInt 10) (PInt 10) (PInt 10) (PInt 10) (PInt 10) aria_world
    = (Ok true, w')
    ∧ c = mkCharacter (PStr " Aria the Bold") (PStr "Bard") (PInt 4) (PInt 10)
            (PInt 10) (PInt 10) (PInt 10) (PInt 10) (PInt 10)
            (created_date aria) (PStr (isoformat (example_clock 5)))
    ∧ get_character (PStr " Aria the Bold") w' = (Ok (Some 1%nat), w')
    ∧ heap w' !! 1%nat = Some c
    ∧ disk w' !! filename_of " Aria the Bold" = Some (Json (PDict (dict_of c)))
    ∧ (" Aria the Bold" ≠ "Aria" →
       get_character (PStr "Aria") w' = (Ok (Some 0%nat), w')).
Proof.
  apply (save_button_edit aria_world "Aria" " Aria the Bold" 0%nat aria).
  - discriminate.
  - reflexivity.
  - reflexivity.
  - reflexivity.
  - reflexivity.
Defined.

(** X18 — A new character is dated by two readings of the clock.  When
    nothing is being edited and the name entered is not blank and is one
    whose file can be opened for writing, the Save button saves a new
    object whose [created_date] is the reading taken
    when the object is built and whose [modified_date] is the reading
    taken by the save, two readings later; with a clock that does not run
    backwards the first is no later than the second. *)
Theorem save_button_new
    (w : World) (s : string) (cl lv st dx co it wi ch : pyval) :
  all_space s = false →
  storable s →
  clock_valid_until w (3 + ticks w) →
  clock_monotone_until w (3 + ticks w) →
  ∃ w' t_created t_modified,
    save_button PNone (PStr s) cl lv st dx co it wi ch w = (Ok true, w')
    ∧ get_character (PStr s) w' = (Ok (Some (length (heap w))), w')
    ∧ heap w' !! length (heap w) =
        Some (mkCharacter (PStr s) cl lv st dx co it wi ch
                (PStr t_created) (PStr t_modified))
    ∧ t_created = isoformat (clock w (ticks w))
    ∧ t_modified = isoformat (clock w (2 + ticks w))
    ∧ str_le t_created t_modified.
Proof.
  intros Hs Hst Hvalid Hmono.
  assert (Hstrip : str_strip s ≠ "").
  { intros H%str_strip_empty. congruence. }
  eexists _, _, _. split.
  { unfold save_button. cbn [py_truthy]. mstep.
    mstep. rewrite (proj2 (String.eqb_neq _ "") Hstrip). cbn [negb].
    by apply (save_button_tail w None s cl lv st dx co it wi ch). }
  cbv zeta. cbn [characters heap disk]. split_and!.
  - rewrite get_character_spec. cbn [characters].
    by rewrite dict_lookup_insert_eq.
  - apply heap_snoc_eq.
  - reflexivity.
  - reflexivity.
  - apply isoformat_le; [apply Hvalid; lia | apply Hvalid; lia |].
    apply Hmono; lia.
Qed.

Lemma save_button_new_witness :
  ∃ w' t_created t_modified,
    save_button PNone (PStr "Thorin") (PStr "Fighter") (PInt 5) (PInt 16)
      (PInt 12) (PInt 14) (PInt 8) (PInt 10) (PInt 13) empty_world
    = (Ok true, w')
    ∧ get_character (PStr "Thorin") w' = (Ok (Some 0%nat), w')
    ∧ heap w' !! 0%nat =
        Some (mkCharacter (PStr "Thorin") (PStr "Fighter") (PInt 5) (PInt 16)
                (PInt 12) (PInt 14) (PInt 8) (PInt 10) (PInt 13)
                (PStr t_created) (PStr t_modified))
    ∧ t_created = isoformat (example_clock 0)
    ∧ t_modified = isoformat (example_clock 2)
    ∧ str_le t_created t_modified.
Proof.
  apply (save_button_new empty_world "Thorin").
  - reflexivity.
  - reflexivity.
  - intros i Hi. apply example_clock_valid. cbn in Hi. lia.
  - intros i j Hij Hj. destruct (decide (i = j)) as [-> | Hne].
    + by left.
    + right. apply example_clock_advances. lia.
Defined.

(** X19 — The class preselected by the form.  The index that the form
    gives to the selectbox is always a position of [CLASSES]; it is the
    position of the class of the record being edited when that class is
    one of [CLASSES], and the first position, "Barbarian", when nothing
    is being edited or the class is empty or unknown.  Computing it
    changes nothing. *)
Theorem selectbox_index_in_range (w : World) (existing : option loc) :
  (∀ e, existing = Some e → is_Some (heap w !! e)) →
  ∃ i,
    selectbox_index existing w = (Ok i, w)
    ∧ (i < length CLASSES)%nat
    ∧ (∀ e c s, existing = Some e → heap w !! e = Some c →
         char_class c = PStr s → s ∈ CLASSES → CLASSES !! i = Some s)
    ∧ (∀ e c, existing = Some e → heap w !! e = Some c →
         in_CLASSES (char_class c) = false → i = O)
    ∧ (existing = None → i = O).
Proof.
  intros Hvalid. destruct existing as [e|].
  - destruct (Hvalid e eq_refl) as [c Hc].
    assert (Hfind : ∀ s l i, index_of s l = Some i → l !! i = Some s).
    { intros s l. induction l as [|x l IH]; intros i; cbn [index_of]; [done|].
      destruct (decide (x = s)) as [-> | Hne]; [by intros [= <-]|].
      destruct (index_of s l) as [j|]; [|done]. intros [= <-]. cbn. auto. }
    assert (Hmem : ∀ s l, s ∈ l → is_Some (index_of s l)).
    { intros s l. induction l as [|x l IH]; [by intros ?%elem_of_nil|].
      cbn [index_of]. destruct (decide (x = s)) as [-> | Hne]; [eauto|].
      intros [-> | Hin]%elem_of_cons; [done|].
      destruct (IH Hin) as [j ->]. eauto. }
    exists (if in_CLASSES (char_class c)
            then default O (CLASSES_index (char_class c)) else O).
    split_and!.
    + unfold selectbox_index. mstep_with ltac:(by apply deref_ok).
      by destruct (in_CLASSES (char_class c)).
    + destruct (char_class c) as [| | |s| |]; cbn [in_CLASSES]; try (cbn; lia).
      case_bool_decide as Hin; [|cbn; lia].
      destruct (Hmem s CLASSES Hin) as [j Hj]. cbn [CLASSES_index].
      rewrite Hj. cbn [default]. by apply lookup_lt_Some with s, Hfind.
    + intros e' c' s [= <-] Hc' Hs Hin. rewrite Hc in Hc'. injection Hc' as <-.
      rewrite Hs. cbn [in_CLASSES CLASSES_index].
      rewrite bool_decide_eq_true_2 by done.
      destruct (Hmem s CLASSES Hin) as [j Hj]. rewrite Hj. cbn [default].
      by apply Hfind.
    + intros e' c' [= <-] Hc' Hout. rewrite Hc in Hc'. injection Hc' as <-.
      by rewrite Hout.
    + done.
  - exists O. split_and!; try done. cbn. lia.
Qed.

Lemma selectbox_index_in_range_witness :
  ∃ i,
    selectbox_index (Some 0%nat) classless_world = (Ok i, classless_world)
    ∧ (i < length CLASSES)%nat
    ∧ (∀ e c s, Some 0%nat = Some e → heap classless_world !! e = Some c →
         char_class c = PStr s → s ∈ CLASSES → CLASSES !! i = Some s)
    ∧ (∀ e c, Some 0%nat = Some e → heap classless_world !! e = Some c →
         in_CLASSES (char_class c) = false → i = O)
    ∧ (Some 0%nat = None → i = O).
Proof.
  apply (selectbox_index_in_range classless_world (Some 0%nat)).
  intros e [= <-]. by eexists.
Defined.

(** X20 — Names without underscore never share a file.  Two names that
    contain no underscore and derive the same file are the same name: the
    collisions of the derivation all involve an underscore. *)
Theorem filename_of_injective_without_underscore (s1 s2 : string) :
  contains_char "_" s1 = false → contains_char "_" s2 = false →
  filename_of s1 = filename_of s2 → s1 = s2.
Proof.
  intros H1 H2 Heq. apply replace_space_inj; [done | done|].
  by apply filename_of_eq.
Qed.

Lemma filename_of_injective_without_underscore_witness :
  "Brom the Bold" = "Brom the Bold".
Proof.
  apply (filename_of_injective_without_underscore "Brom the Bold" "Brom the Bold");
    reflexivity.
Defined.

(** X21 — [from_dict] ignores the keys it does not know.  Adding to a
    dictionary a key other than the eleven of a record changes nothing of
    what [from_dict] does with it: same object, same state. *)
Theorem from_dict_ignores_unknown_keys
    (w : World) (d : gmap string pyval) (k : string) (v : pyval) :
  k ∉ record_keys →
  from_dict (PDict (<[k := v]> d)) w = from_dict (PDict d) w.
Proof.
  intros Hk. rewrite !from_dict_spec. by rewrite record_of_insert_unknown.
Qed.

Lemma from_dict_ignores_unknown_keys_witness :
  from_dict (PDict (<["notes" := PStr "lost"]> (dict_of aria))) empty_world
  = from_dict (PDict (dict_of aria)) empty_world.
Proof.
  apply (from_dict_ignores_unknown_keys empty_world (dict_of aria) "notes").
  unfold record_keys. intros Hin.
  repeat (apply elem_of_cons in Hin as [Hin | Hin]; [discriminate|]).
  by apply elem_of_nil in Hin.
Defined.

(** X22 — Serializing what was deserialized.  For a dictionary that has
    the eleven keys of a record and no other, [to_dict(from_dict(d))]
    returns [d]. *)
Theorem to_dict_from_dict_roundtrip (w : World) (d : gmap string pyval) :
  dom d = list_to_set record_keys →
  ∃ w', (from_dict (PDict d) ≫= to_dict) w = (Ok (PDict d), w').
Proof.
  intros Hdom. eexists.
  mstep_with ltac:(apply from_dict_spec).
  erewrite to_dict_spec; [|apply heap_snoc_eq].
  by rewrite dict_of_record_of.
Qed.

Lemma to_dict_from_dict_roundtrip_witness :
  ∃ w', (from_dict (PDict (dict_of aria)) ≫= to_dict) empty_world
        = (Ok (PDict (dict_of aria)), w').
Proof.
  apply (to_dict_from_dict_roundtrip empty_world (dict_of aria)).
  by apply (bool_decide_unpack _).
Defined.

(** X23 — Building a character.  The constructor returns a reference to
    a new object that carries the nine values given; it leaves the
    objects that exist, the directory and the mapping as they were, and,
    with a clock that does not run backwards, dates the object with a
    [created_date] no later than its [modified_date]. *)
Theorem Character_init_fresh
    (w : World) (nm cl lv st dx co it wi ch : pyval) :
  clock_valid_until w (2 + ticks w) →
  clock_monotone_until w (2 + ticks w) →
  ∃ w' t_created t_modified,
    Character_init nm cl lv st dx co it wi ch w = (Ok (length (heap w)), w')
    ∧ heap w !! length (heap w) = None
    ∧ heap w' !! length (heap w) =
        Some (mkCharacter nm cl lv st dx co it wi ch
                (PStr t_created) (PStr t_modified))
    ∧ str_le t_created t_modified
    ∧ (∀ l c, heap w !! l = Some c → heap w' !! l = Some c)
    ∧ disk w' = disk w
    ∧ characters w' = characters w.
Proof.
  intros Hvalid Hmono. eexists _, _, _. split; [apply Character_init_spec|].
  cbn [heap disk characters]. split_and!; try done.
  - by apply lookup_ge_None.
  - apply heap_snoc_eq.
  - apply isoformat_le; [apply Hvalid; lia | apply Hvalid; lia |].
    apply Hmono; lia.
  - intros l c Hl. by apply heap_snoc_old.
Qed.

Lemma Character_init_fresh_witness :
  ∃ w' t_created t_modified,
    Character_init (PStr "Thorin") (PStr "Fighter") (PInt 5) (PInt 16)
      (PInt 12) (PInt 14) (PInt 8) (PInt 10) (PInt 13) aria_world
    = (Ok (length (heap aria_world)), w')
    ∧ heap aria_world !! length (heap aria_world) = None
    ∧ heap w' !! length (heap aria_world) =
        Some (mkCharacter (PStr "Thorin") (PStr "Fighter") (PInt 5) (PInt 16)
                (PInt 12) (PInt 14) (PInt 8) (PInt 10) (PInt 13)
                (PStr t_created) (PStr t_modified))
    ∧ str_le t_created t_modified
    ∧ (∀ l c, heap aria_world !! l = Some c → heap w' !! l = Some c)
    ∧ disk w' = disk aria_world
    ∧ characters w' = characters aria_world.
Proof.
  apply (Character_init_fresh aria_world).
  - intros i Hi. apply example_clock_valid. cbn in Hi. lia.
  - intros i j Hij Hj. destruct (decide (i = j)) as [-> | Hne].
    + by left.
    + right. apply example_clock_advances. lia.
Defined.

(** X24 — A deleted character can come back.  [delete_character] removes
    the file derived from the name and no other.  When the record of the
    name lives in a record file that the name does not derive, the delete
    (of a name whose own file is there or can be looked for) succeeds and
    leaves that file in place, and the next construction of the store,
    over a directory whose enumerated files all load, finds the name
    again, for an object of that name that it has built. *)
Theorem delete_then_restart_resurrects
    (w : World) (s p : string) (l : loc) (doc : gmap string pyval) :
  dict_lookup (KStr s) (characters w) = Some l →
  disk w !! p = Some (Json (PDict doc)) →
  doc !! "name" = Some (PStr s) →
  p ≠ filename_of s →
  glob_match p = true →
  is_Some (disk w !! filename_of s) ∨ stat_error (filename_of s) = None →
  ∃ w1,
    delete_character (PStr s) w = (Ok (), w1)
    ∧ disk w1 !! p = Some (Json (PDict doc))
    ∧ ∀ order,
        glob_enumerates (disk w1) order →
        (∀ q, q ∈ order → is_Some (file_key (disk w1) q)) →
        ∃ w2 r c',
          (CharacterDatabase_init order ≫= λ _, get_character (PStr s)) w1
            = (Ok (Some r), w2)
          ∧ heap w1 !! r = None
          ∧ heap w2 !! r = Some c'
          ∧ name c' = PStr s.
Proof.
  intros Hl Hp Hname Hne Hg Hprobe.
  eexists. split; [by apply (delete_character_spec w s l)|].
  assert (Hp1 : delete (filename_of s) (disk w) !! p = Some (Json (PDict doc))).
  { by rewrite lookup_delete_ne. }
  split; [exact Hp1|].
  intros order [_ Horder] Hall. cbn [disk] in *.
  set (w1 := mkWorld _ _ _ _ _) in *.
  destruct (load_all_characters_spec w1 order Hall) as (w2 & Hrun & Hw2).
  assert (Hin : Some (KStr s) ∈ map (file_key (disk w1)) order).
  { apply list_elem_of_fmap. exists p. split.
    - unfold file_key, w1. cbn [disk]. by rewrite Hp1, Hname.
    - apply Horder. split; [by eexists | done]. }
  destruct (find_last (KStr s) (map (file_key (disk w1)) order)) as [i|] eqn:E;
    [|by apply find_last_None in E].
  pose proof (proj1 (find_last_Some _ _ _) E) as [Hi _].
  rewrite list_lookup_fmap in Hi.
  destruct (order !! i) as [q|] eqn:Hq; [|done]. cbn in Hi.
  injection Hi as Hkey.
  destruct (file_key_doc _ _ _ Hkey) as (doc' & Hdoc' & _ & Hhash).
  pose proof (loaded_new _ _ _ Hw2 i q doc' Hq Hdoc') as Hobj.
  cbn [heap cleared] in Hobj.
  exists w2, (length (heap w1) + i)%nat. eexists. split_and!.
  - mstep_with ltac:(by rewrite CharacterDatabase_init_load).
    rewrite get_character_spec, (loaded_lookup _ _ _ Hw2).
    cbn [disk cleared heap]. fold w1. by rewrite E.
  - apply lookup_ge_None. lia.
  - exact Hobj.
  - cbn [name record_of].
    destruct (default (PStr "") (doc' !! "name")) as [|[]| | | |]; try done.
    by injection Hhash as ->.
Qed.

Lemma delete_then_restart_resurrects_witness :
  ∃ w1,
    delete_character (PStr "Aria") stray_world = (Ok (), w1)
    ∧ disk w1 !! "x.json"
      = Some (Json (PDict (dict_of (example_character "Aria" 5))))
    ∧ ∀ order,
        glob_enumerates (disk w1) order →
        (∀ q, q ∈ order → is_Some (file_key (disk w1) q)) →
        ∃ w2 r c',
          (CharacterDatabase_init order ≫= λ _, get_character (PStr "Aria")) w1
            = (Ok (Some r), w2)
          ∧ heap w1 !! r = None
          ∧ heap w2 !! r = Some c'
          ∧ name c' = PStr "Aria".
Proof.
  apply (delete_then_restart_resurrects stray_world "Aria" "x.json" 0%nat
           (dict_of (example_character "Aria" 5))).
  - reflexivity.
  - reflexivity.
  - reflexivity.
  - discriminate.
  - reflexivity.
  - by right.
Defined.

(** X25 — Which saves succeed.  The [save_character] of an object with a
    text name without [/] returns normally exactly when the file of the
    name can be opened for writing. *)
Theorem save_character_succeeds_iff
    (w : World) (character : loc) (c : Character) (s : string) :
  heap w !! character = Some c → name c = PStr s →
  contains_char "/" s = false →
  fst (save_character character w) = Ok () ↔ storable s.
Proof.
  intros Hl Hn _. split.
  - intros Hok. destruct (save_character character w) as [r w'] eqn:Hrun.
    cbn [fst] in Hok. subst r. by eapply save_character_ok_storable.
  - intros Hst. by rewrite (save_character_spec w character c s Hl Hn Hst).
Qed.

Lemma save_character_succeeds_iff_witness :
  (fst (save_character 3 unstorable_world) = Ok () ↔ storable "Cora")
  ∧ (fst (save_character 0 unstorable_world) = Ok () ↔ storable long_name).
Proof.
  split.
  - apply (save_character_succeeds_iff unstorable_world 3%nat
             (example_character "Cora" 4) "Cora"); reflexivity.
  - apply (save_character_succeeds_iff unstorable_world 0%nat
             (example_character long_name 1) long_name);
      [reflexivity | reflexivity | by vm_compute].
Defined.

(** X26 — A name that cannot be a file name.  When the name of the object
    is text with a NUL character, or without one but too long for a file
    name once the extension is added, [save_character] raises what
    [open] raises, [ValueError] or [OSError]: no file is written and the
    mapping is unchanged, but the [modified_date] of the object has
    already been set to the reading of the clock. *)
Theorem save_character_unstorable_name
    (w : World) (character : loc) (c : Character) (s : string) (e : exn) :
  heap w !! character = Some c → name c = PStr s →
  open_error (filename_of s) = Some e → e ≠ OutsideDirectory →
  ∃ w',
    save_character character w = (Raise e, w')
    ∧ (e = ValueError ∧ contains_char "000" s = true
       ∨ e = OSError ∧ (NAME_MAX < utf8_length s + 5)%nat)
    ∧ disk w' = disk w
    ∧ characters w' = characters w
    ∧ heap w' !! character =
        Some (set_modified_date (PStr (isoformat (clock w (ticks w)))) c).
Proof.
  intros Hl Hn He Hout. eexists. split; [by eapply save_character_unstorable|].
  cbn [disk characters heap]. split_and!; try done.
  - unfold open_error, filename_of in He.
    rewrite contains_char_app, contains_nul_replace_space in He.
    change (contains_char "000" ".json") with false in He.
    rewrite orb_false_r in He.
    destruct (contains_char "000" s); [left; split; congruence|].
    destruct (contains_char "/" _); [congruence|].
    rewrite utf8_length_app, utf8_length_replace_space in He.
    change (utf8_length ".json") with 5%nat in He.
    destruct (Nat.ltb_spec NAME_MAX (utf8_length s + 5)) as [Hlong|]; [|done].
    right. split; [congruence | done].
  - by eapply heap_insert_eq.
Qed.

Lemma save_character_unstorable_name_witness :
  (∃ w',
     save_character 0 unstorable_world = (Raise OSError, w')
     ∧ (OSError = ValueError ∧ contains_char "000" long_name = true
        ∨ OSError = OSError ∧ (NAME_MAX < utf8_length long_name + 5)%nat)
     ∧ disk w' = disk unstorable_world
     ∧ characters w' = characters unstorable_world
     ∧ heap w' !! 0%nat =
         Some (set_modified_date (PStr (isoformat (example_clock 6)))
                 (example_character long_name 1)))
  ∧ (∃ w',
       save_character 1 unstorable_world = (Raise ValueError, w')
       ∧ (ValueError = ValueError ∧ contains_char "000" nul_name = true
          ∨ ValueError = OSError ∧ (NAME_MAX < utf8_length nul_name + 5)%nat)
       ∧ disk w' = disk unstorable_world
       ∧ characters w' = characters unstorable_world
       ∧ heap w' !! 1%nat =
           Some (set_modified_date (PStr (isoformat (example_clock 6)))
                   (example_character nul_name 2))).
Proof.
  split.
  - apply (save_character_unstorable_name unstorable_world 0%nat
             (example_character long_name 1) long_name OSError);
      [reflexivity | reflexivity | by vm_compute | discriminate].
  - apply (save_character_unstorable_name unstorable_world 1%nat
             (example_character nul_name 2) nul_name ValueError);
      [reflexivity | reflexivity | by vm_compute | discriminate].
Defined.

(** X27 — The names that can be stored.  The file of a name without [/]
    can be opened for writing exactly when the name has no NUL character
    and at most 250 bytes once encoded, which with the extension makes
    the 255 that a file name can have; the replacement of the spaces
    changes neither. *)
Theorem storable_iff (s : string) :
  contains_char "/" s = false →
  storable s ↔
  contains_char "000" s = false ∧ (utf8_length s <= 250)%nat.
Proof.
  intros Hslash. unfold storable, open_error, filename_of.
  rewrite !contains_char_app, contains_nul_replace_space,
    contains_slash_replace_space, utf8_length_app, utf8_length_replace_space.
  change (contains_char "000" ".json") with false.
  change (contains_char "/" ".json") with false.
  change (utf8_length ".json") with 5%nat.
  rewrite !orb_false_r, Hslash. unfold NAME_MAX.
  destruct (contains_char "000" s); [by split; [|intros [? _]]|].
  destruct (Nat.ltb_spec 255 (utf8_length s + 5)) as [Hlong | Hshort].
  - split; [done|]. intros [_ H]. lia.
  - split; [|done]. intros _. split; [done | lia].
Qed.

Lemma storable_iff_witness :
  (storable "Brom the Bold" ↔
   contains_char "000" "Brom the Bold" = false
   ∧ (utf8_length "Brom the Bold" <= 250)%nat)
  ∧ (storable long_name ↔
     contains_char "000" long_name = false
     ∧ (utf8_length long_name <= 250)%nat).
Proof.
  split.
  - apply (storable_iff "Brom the Bold"). reflexivity.
  - apply (storable_iff long_name). by vm_compute.
Defined.



(** X29 — What [strip] takes off.  [s.strip()] is [s] without a run of
    white space at each end, and neither begins nor ends with white
    space.  White space is that of Python on the code points below 256,
    the no-break space and the next-line character included: of a
    no-break space, a tab, "x y", a next-line character and a space,
    [strip] leaves "x y". *)
Theorem str_strip_spec :
  (∀ s : string,
     ∃ a b, s = a +:+ (str_strip s +:+ b)
            ∧ all_space a = true ∧ all_space b = true
            ∧ (∀ c r, str_strip s = String c r → py_isspace c = false)
            ∧ (∀ t c, str_strip s = t +:+ String c "" → py_isspace c = false))
  ∧ str_strip padded_name = "x y"
  ∧ filter (λ n, py_isspace (ascii_of_nat n)) (seq 0 256)
    = [9; 10; 11; 12; 13; 28; 29; 30; 31; 32; 133; 160]%nat.
Proof.
  split_and!.
  - intros s. unfold str_strip.
    destruct (lstrip_split s) as (a & Ha & Hsa).
    destruct (rstrip_split (lstrip s)) as (b & Hb & Hsb).
    exists a, b. split_and!; try done.
    + by rewrite <- Hb.
    + intros c r Hc. destruct (lstrip s) as [|c' r'] eqn:E; [done|].
      pose proof (lstrip_head s c' r' E) as Hc'.
      destruct (rstrip_head c' r' Hc') as (r'' & Hr).
      rewrite Hr in Hc. by injection Hc as <- _.
    + intros t c. apply rstrip_last.
  - by vm_compute.
  - by vm_compute.
Qed.

